(** * pick: the command helpers of [commands/util.go]

    A shallow embedding of [runCommand], [runMovedCommand], the
    [safeLoader] (constructor, [RememberPassword], [Load],
    [LoadWithBackendClient]), [readMasterPassConfirmed], [initSafe] and
    [handleError], followed by the properties of the unlock / initialise
    protocol.

    The collaborators of the file (the storage backend, the crypto
    provider, the [safe] package, the password prompt, the console and the
    process exit) are not part of it.  They are modelled as oracles that
    answer from the history of calls made so far, so every theorem holds
    for any behaviour of the collaborators. *)

From Stdlib Require Import ZArith List String Ascii Bool Lia.
From Stdlib.Strings Require Byte.
Import ListNotations.
Local Open Scope Z_scope.
Local Open Scope string_scope.
Local Open Scope list_scope.

(** ** Go values *)

Module GoInt.

(** Go's [int] on a 64-bit platform: a signed 64-bit integer, carried as
    a [Z] between [min_int] and [max_int]; arithmetic wraps around. *)
Definition max_int : Z := 9223372036854775807.
Definition min_int : Z := -9223372036854775808.

Definition in_range (z : Z) : Prop := min_int <= z <= max_int.

Definition wrap (z : Z) : Z := (z - min_int) mod 18446744073709551616 + min_int.

(** [x++] *)
Definition incr (z : Z) : Z := wrap (z + 1).

End GoInt.

(** [[]byte]; [bytes.Equal] does not tell a nil slice from an empty one. *)
Definition bytes : Type := list Byte.byte.

Fixpoint bytes_Equal (a b : bytes) : bool :=
  match a, b with
  | [], [] => true
  | x :: a', y :: b' => Byte.eqb x y && bytes_Equal a' b'
  | _, _ => false
  end.

(** Error values.  [==] on Go errors is identity of the value, so the
    model separates the values made outside this file from those that
    [builtinerrors.New] allocates inside it: a freshly allocated error is
    equal to no value a collaborator hands back. *)
Inductive foreign_error : Type :=
| ErrInvalidCommandUsage            (* errors.ErrInvalidCommandUsage *)
| ErrAlreadyRunning                 (* errors.ErrAlreadyRunning *)
| ErrAuthenticationFailed
    (* Modelled from the spec: the AuthenticationFailed member of the
       error taxonomy; util.go never names it. *)
| ErrNotInitialized
    (* Modelled from the spec: the NotInitialized condition by which the
       backend's Load tells that nothing is stored at the location yet;
       util.go never names it. *)
| ErrOther (msg : string).          (* any other error value *)

Inductive error : Type :=
| Foreign (e : foreign_error)       (* a value received from a collaborator *)
| New (msg : string).               (* builtinerrors.New(msg) *)

Definition foreign_error_eqb (a b : foreign_error) : bool :=
  match a, b with
  | ErrInvalidCommandUsage, ErrInvalidCommandUsage => true
  | ErrAlreadyRunning, ErrAlreadyRunning => true
  | ErrAuthenticationFailed, ErrAuthenticationFailed => true
  | ErrNotInitialized, ErrNotInitialized => true
  | ErrOther m, ErrOther m' => String.eqb m m'
  | _, _ => false
  end.

Definition error_eqb (a b : error) : bool :=
  match a, b with
  | Foreign x, Foreign y => foreign_error_eqb x y
  | New m, New m' => String.eqb m m'
  | _, _ => false
  end.

(** A Go pair [(value, error)] of which exactly one side is meaningful. *)
Inductive result (E A : Type) : Type :=
| Ok (a : A)
| Err (e : E).
Arguments Ok {E A} a.
Arguments Err {E A} e.

(** The [error] half of the pair; [None] is nil. *)
Definition err_of {E A} (r : result E A) : option E :=
  match r with Ok _ => None | Err e => Some e end.

(** ** The collaborators *)

(** What the program does to the outside world, in the order it does it.
    A call that returns an error is recorded with that error. *)
Inductive event : Type :=
| EvBackendsNew (err : option foreign_error)
    (* backends.New(&config.Storage) *)
| EvBackendLoad (err : option foreign_error)
    (* backendClient.Load() *)
| EvSetWritable (w : bool) (err : option foreign_error)
    (* backendClient.SetWritable(w) *)
| EvSafeLocation
    (* backendClient.SafeLocation() *)
| EvGetPasswordInput (msg : string) (err : option foreign_error)
    (* utils.GetPasswordInput(msg) *)
| EvCryptoNew (err : option foreign_error)
    (* crypto.New(&config.Encryption) *)
| EvSafeLoad (password : bytes) (err : option foreign_error)
    (* safe.Load(password, backendClient, cryptoClient, config) *)
| EvSafeInit (err : option foreign_error)
    (* s.Init() *)
| EvPrintln (s : string)
    (* fmt.Println of a string *)
| EvPrintlnErr (e : error)
    (* fmt.Println(err) *)
| EvUsage
    (* cmd.Usage() *)
| EvPrintRed (format : string).
    (* the function made by color.New(color.FgRed).PrintfFunc() *)

Definition trace : Type := list event.

(** [backends.Client]: an interface value, here the record of its methods.
    Each method answers from the history of the run. *)
Record Client : Type := {
  Client_Load : trace -> result foreign_error bytes;
  Client_SetWritable : trace -> bool -> option foreign_error;
  Client_SafeLocation : trace -> string;
}.

(** [crypto.Client]: opaque to this file. *)
Record CryptoClient : Type := { crypto_tag : nat }.

(** [*safe.Safe]: only [Init] is called on it here. *)
Record Safe : Type := {
  safe_tag : nat;
  Safe_Init : trace -> option foreign_error;
}.

(** The package-level functions of the collaborators.  The global
    [config] they read is part of the environment. *)
Record Env : Type := {
  backends_New : trace -> result foreign_error Client;
  crypto_New : trace -> result foreign_error CryptoClient;
  utils_GetPasswordInput : trace -> string -> result foreign_error bytes;
  safe_Load : trace -> bytes -> Client -> CryptoClient -> result foreign_error Safe;
  strconv_Quote : string -> string;     (* the %q verb of fmt *)
}.

(** ** A state monad over the history *)

Definition M (A : Type) : Type := trace -> A * trace.

Definition ret {A} (a : A) : M A := fun tr => (a, tr).

Definition bind {A B} (m : M A) (k : A -> M B) : M B :=
  fun tr => let (a, tr') := m tr in k a tr'.

(** One call of a collaborator: it answers from the history before the
    call, and the call is appended to the history with its answer. *)
Definition call {A} (oracle : trace -> A) (ev : A -> event) : M A :=
  fun tr => (oracle tr, tr ++ [ev (oracle tr)]).

(** Output, which answers nothing. *)
Definition emit (ev : event) : M unit := fun tr => (tt, tr ++ [ev]).

Declare Scope go_scope.
Delimit Scope go_scope with go.
Notation "x <- m ;; k" := (bind m (fun x => k))
  (at level 61, m at next level, right associativity) : go_scope.
Notation "m ;;; k" := (bind m (fun _ => k))
  (at level 61, right associativity) : go_scope.
Local Open Scope go_scope.

(** ** The program *)

(** A command as [runCommand] receives it; [cobra.Command] is reduced to
    the flag set it hands over and to its [Usage] method. *)
Definition FlagSet : Type := list (string * string).
Record Command : Type := { Flags : FlagSet }.
Definition CommandFunc : Type := list string -> FlagSet -> M (option error).

(** [safeLoader]; the nil-able [password *[]byte] is an [option]. *)
Record safeLoader : Type := {
  writable : bool;
  password : option bytes;
  maxLoadTries : Z;
  loadTries : Z;
}.

Definition set_password (sl : safeLoader) (p : option bytes) : safeLoader :=
  {| writable := writable sl; password := p;
     maxLoadTries := maxLoadTries sl; loadTries := loadTries sl |}.

Definition set_maxLoadTries (sl : safeLoader) (n : Z) : safeLoader :=
  {| writable := writable sl; password := password sl;
     maxLoadTries := n; loadTries := loadTries sl |}.

Definition set_loadTries (sl : safeLoader) (n : Z) : safeLoader :=
  {| writable := writable sl; password := password sl;
     maxLoadTries := maxLoadTries sl; loadTries := n |}.

(** [newSafeLoader]: the fields left out of the literal are zero values. *)
Definition newSafeLoader (w : bool) : safeLoader :=
  {| writable := w; password := None; maxLoadTries := 0; loadTries := 0 |}.

(** [RememberPassword] *)
Definition RememberPassword (sl : safeLoader) : safeLoader :=
  set_maxLoadTries sl (GoInt.incr (maxLoadTries sl)).

Definition unlock_prompt (location : string) : string :=
  ("Enter your master password for safe '" ++ location ++ "'")%string.

Definition not_initialized_msg : string :=
  "pick not yet initialized. Please run the init command first".

Definition mismatch_msg : string := "Master passwords do not match".

Definition already_initialized_msg : string := "pick was already initialized".

Definition set_prompt (n : bool) : string :=
  ("Please set a " ++ (if n then "new " else "")
     ++ "master password. This is the only password you need to remember")%string.

Definition confirm_prompt (n : bool) : string :=
  ("Please confirm your " ++ (if n then "new " else "") ++ "master password")%string.

Section Program.

Variable env : Env.

(** [newBackendClient] and [newCryptoClient] *)
Definition newBackendClient : M (result foreign_error Client) :=
  call (backends_New env) (fun r => EvBackendsNew (err_of r)).

Definition newCryptoClient : M (result foreign_error CryptoClient) :=
  call (crypto_New env) (fun r => EvCryptoNew (err_of r)).

Definition GetPasswordInput (msg : string) : M (result foreign_error bytes) :=
  call (fun tr => utils_GetPasswordInput env tr msg)
       (fun r => EvGetPasswordInput msg (err_of r)).

(** [handleError] *)
Definition handleError (err : error) : M Z :=
  emit (EvPrintlnErr err) ;;;
  ret 1.

(** [runCommand].  [os.Exit] does not return: the value of the
    computation is the exit code of the process. *)
Definition runCommand (c : CommandFunc) (cmd : Command) (args : list string) : M Z :=
  r <- c args (Flags cmd) ;;
  match r with
  | Some err =>
      if error_eqb err (Foreign ErrInvalidCommandUsage) then
        emit EvUsage ;;;
        ret 1
      else
        code <- handleError err ;;
        ret code
  | None => ret 0
  end.

Definition moved_note (nl : string) : string :=
  ("NOTE: This command has moved to " ++ strconv_Quote env nl
     ++ " and will be removed soon." ++ String "010" (String "010" ""))%string.

(** [runMovedCommand] *)
Definition runMovedCommand (c : CommandFunc) (cmd : Command) (args : list string)
    (nl : string) : M Z :=
  emit (EvPrintRed (moved_note nl)) ;;;
  runCommand c cmd args.

(** [LoadWithBackendClient].  The receiver is a pointer, so the loader
    as the call leaves it is returned next to the Go results.  The
    method calls itself; [fuel] bounds the depth of that recursion and
    [None] reports that the bound was reached. *)
Fixpoint LoadWithBackendClient_fuel (fuel : nat) (sl : safeLoader) (backendClient : Client)
    : M (option (safeLoader * result error Safe)) :=
  match fuel with
  | O => ret None
  | S fuel' =>
      err <- call (fun tr => Client_SetWritable backendClient tr (writable sl))
               (EvSetWritable (writable sl)) ;;
      match err with
      | Some ErrAlreadyRunning => ret (Some (sl, Err (Foreign ErrAlreadyRunning)))
      | _ =>
          prompted <-
            match password sl with
            | None =>
                location <- call (Client_SafeLocation backendClient)
                              (fun _ => EvSafeLocation) ;;
                r <- GetPasswordInput (unlock_prompt location) ;;
                match r with
                | Err e => ret (Err e)
                | Ok pw => ret (Ok (set_password sl (Some pw), pw))
                end
            | Some pw => ret (Ok (sl, pw))
            end ;;
          match prompted with
          | Err e => ret (Some (sl, Err (Foreign e)))
          | Ok (sl1, pw) =>
              cr <- newCryptoClient ;;
              match cr with
              | Err e => ret (Some (sl1, Err (Foreign e)))
              | Ok cryptoClient =>
                  r <- call (fun tr => safe_Load env tr pw backendClient cryptoClient)
                         (fun r => EvSafeLoad pw (err_of r)) ;;
                  match r with
                  | Err e =>
                      if maxLoadTries sl1 >? loadTries sl1 then
                        LoadWithBackendClient_fuel fuel'
                          (set_loadTries (set_password sl1 None)
                             (GoInt.incr (loadTries sl1)))
                          backendClient
                      else ret (Some (sl1, Err (Foreign e)))
                  | Ok s => ret (Some (sl1, Ok s))
                  end
              end
          end
      end
  end.

(** The recursion is entered only under [maxLoadTries > loadTries] and
    raises [loadTries] by one, so this much fuel is never used up. *)
Definition LoadWithBackendClient_depth (sl : safeLoader) : nat :=
  S (Z.to_nat (maxLoadTries sl - loadTries sl)).

Definition LoadWithBackendClient (sl : safeLoader) (backendClient : Client)
    : M (option (safeLoader * result error Safe)) :=
  LoadWithBackendClient_fuel (LoadWithBackendClient_depth sl) sl backendClient.

(** [Load] *)
Definition Load (sl : safeLoader) : M (option (safeLoader * result error Safe)) :=
  r <- newBackendClient ;;
  match r with
  | Err err => ret (Some (sl, Err (Foreign err)))
  | Ok backendClient =>
      l <- call (Client_Load backendClient) (fun r => EvBackendLoad (err_of r)) ;;
      match l with
      | Err _ => ret (Some (sl, Err (New not_initialized_msg)))
      | Ok _ => LoadWithBackendClient sl backendClient
      end
  end.

(** [readMasterPassConfirmed] *)
Definition readMasterPassConfirmed (n : bool) : M (result error bytes) :=
  r1 <- GetPasswordInput (set_prompt n) ;;
  match r1 with
  | Err err => ret (Err (Foreign err))
  | Ok password =>
      r2 <- GetPasswordInput (confirm_prompt n) ;;
      match r2 with
      | Err err => ret (Err (Foreign err))
      | Ok passwordConfirm =>
          if negb (bytes_Equal password passwordConfirm) then
            ret (Err (New mismatch_msg))
          else ret (Ok password)
      end
  end.

(** [initSafe]; [None] is Go's nil error. *)
Definition initSafe : M (option error) :=
  r <- newBackendClient ;;
  match r with
  | Err err => ret (Some (Foreign err))
  | Ok backendClient =>
      l <- call (Client_Load backendClient) (fun r => EvBackendLoad (err_of r)) ;;
      match l with
      | Ok _ => ret (Some (New already_initialized_msg))
      | Err _ =>
          w <- call (fun tr => Client_SetWritable backendClient tr true)
                 (EvSetWritable true) ;;
          match w with
          | Some ErrAlreadyRunning => ret (Some (Foreign ErrAlreadyRunning))
          | _ =>
              p <- readMasterPassConfirmed false ;;
              match p with
              | Err err => ret (Some err)
              | Ok password =>
                  cr <- newCryptoClient ;;
                  match cr with
                  | Err err => ret (Some (Foreign err))
                  | Ok cryptoClient =>
                      sr <- call (fun tr => safe_Load env tr password backendClient cryptoClient)
                              (fun r => EvSafeLoad password (err_of r)) ;;
                      match sr with
                      | Err err => ret (Some (Foreign err))
                      | Ok s =>
                          i <- call (Safe_Init s) EvSafeInit ;;
                          match i with
                          | Some err => ret (Some (Foreign err))
                          | None =>
                              emit (EvPrintln "pick initialized") ;;;
                              ret None
                          end
                      end
                  end
              end
          end
      end
  end.

End Program.

(** ** One pass through the body of [LoadWithBackendClient]

    The body either returns or calls the method again on an updated
    loader.  [attempt] is that body with the self-call left pending, which
    is what the inductions below go through; [LoadWithBackendClient_fuel]
    is [attempt] followed by [resume]. *)

Inductive attempt_outcome : Type :=
| Done (sl : safeLoader) (r : result error Safe)
| Again (sl : safeLoader).

Definition attempt (env : Env) (sl : safeLoader) (backendClient : Client)
    : M attempt_outcome :=
  err <- call (fun tr => Client_SetWritable backendClient tr (writable sl))
           (EvSetWritable (writable sl)) ;;
  match err with
  | Some ErrAlreadyRunning => ret (Done sl (Err (Foreign ErrAlreadyRunning)))
  | _ =>
      prompted <-
        match password sl with
        | None =>
            location <- call (Client_SafeLocation backendClient)
                          (fun _ => EvSafeLocation) ;;
            r <- GetPasswordInput env (unlock_prompt location) ;;
            match r with
            | Err e => ret (Err e)
            | Ok pw => ret (Ok (set_password sl (Some pw), pw))
            end
        | Some pw => ret (Ok (sl, pw))
        end ;;
      match prompted with
      | Err e => ret (Done sl (Err (Foreign e)))
      | Ok (sl1, pw) =>
          cr <- newCryptoClient env ;;
          match cr with
          | Err e => ret (Done sl1 (Err (Foreign e)))
          | Ok cryptoClient =>
              r <- call (fun tr => safe_Load env tr pw backendClient cryptoClient)
                     (fun r => EvSafeLoad pw (err_of r)) ;;
              match r with
              | Err e =>
                  if maxLoadTries sl1 >? loadTries sl1 then
                    ret (Again (set_loadTries (set_password sl1 None)
                                  (GoInt.incr (loadTries sl1))))
                  else ret (Done sl1 (Err (Foreign e)))
              | Ok s => ret (Done sl1 (Ok s))
              end
          end
      end
  end.

Definition resume (env : Env) (fuel : nat) (backendClient : Client) (o : attempt_outcome)
    : M (option (safeLoader * result error Safe)) :=
  match o with
  | Done sl r => ret (Some (sl, r))
  | Again sl => LoadWithBackendClient_fuel env fuel sl backendClient
  end.

(** The loader on which the method calls itself: password dropped, one
    more retry consumed. *)
Definition retried (sl : safeLoader) : safeLoader :=
  {| writable := writable sl; password := None;
     maxLoadTries := maxLoadTries sl; loadTries := GoInt.incr (loadTries sl) |}.

(** ** Reading a history *)

Definition is_prompt (ev : event) : bool :=
  match ev with EvGetPasswordInput _ _ => true | _ => false end.

Definition is_safe_load (ev : event) : bool :=
  match ev with EvSafeLoad _ _ => true | _ => false end.

Definition is_set_writable (ev : event) : bool :=
  match ev with EvSetWritable _ _ => true | _ => false end.

(** The calls that can change what the backend stores or who holds its
    lock: taking or releasing the lock, and [s.Init()], the only caller of
    [Save] reachable from this file. *)
Definition is_backend_write (ev : event) : bool :=
  match ev with EvSetWritable _ _ | EvSafeInit _ => true | _ => false end.

Definition count (p : event -> bool) (tr : trace) : nat :=
  List.length (List.filter p tr).

(** The error a recorded call returned. *)
Definition failure (ev : event) : option foreign_error :=
  match ev with
  | EvBackendsNew err | EvBackendLoad err | EvSetWritable _ err
  | EvGetPasswordInput _ err | EvCryptoNew err | EvSafeLoad _ err
  | EvSafeInit err => err
  | EvSafeLocation | EvPrintln _ | EvPrintlnErr _ | EvUsage | EvPrintRed _ => None
  end.

(** The calls after which a run goes on: those that returned no error,
    and three kinds of failed ones.  A failed [safe.Load] that is not the
    end of the run was retried; a failed [backendClient.Load] is how
    [initSafe] learns that there is nothing to overwrite; an error of
    [SetWritable] other than [ErrAlreadyRunning] is dropped. *)
Definition passed_over (ev : event) : bool :=
  match ev with
  | EvSafeLoad _ (Some _) => true
  | EvBackendLoad (Some _) => true
  | EvSetWritable _ (Some e) => negb (foreign_error_eqb e ErrAlreadyRunning)
  | _ => match failure ev with None => true | Some _ => false end
  end.

(** The loader's counters are Go [int]s. *)
Definition wf_loader (sl : safeLoader) : Prop :=
  GoInt.in_range (maxLoadTries sl) /\ GoInt.in_range (loadTries sl).

(** The invariant of the retry counters. *)
Definition tries_inv (sl : safeLoader) : Prop :=
  loadTries sl <= maxLoadTries sl.

Definition never_New {A} (r : result error A) : Prop :=
  forall m, r <> Err (New m).

(** What holds of every run of [LoadWithBackendClient] that starts from
    [sl], ends in [sl'] with result [r] and made the calls [evs]. *)
Record run_facts (sl : safeLoader) (sl' : safeLoader) (r : result error Safe)
    (evs : trace) : Prop := {
  run_wf : wf_loader sl';
  run_max : maxLoadTries sl' = maxLoadTries sl;
  run_writable : writable sl' = writable sl;
  run_tries_lo : loadTries sl <= loadTries sl';
  run_tries_hi : loadTries sl' <= Z.max (loadTries sl) (maxLoadTries sl);
  run_loads : (count is_safe_load evs <= LoadWithBackendClient_depth sl)%nat;
  run_prompts : (count is_prompt evs <= LoadWithBackendClient_depth sl)%nat;
  run_foreign : never_New r;
  run_errors :
    match r with
    | Ok _ => forallb passed_over evs = true
    | Err x =>
        exists e, x = Foreign e /\ failure (last evs EvUsage) = Some e /\
                  forallb passed_over (removelast evs) = true
    end;
}.

(** ** Assumptions on the collaborators used by the retry bound *)

(** The prompt always returns an input. *)
Definition prompt_answers (env : Env) : Prop :=
  forall tr msg, exists pw, utils_GetPasswordInput env tr msg = Ok pw.

(** The crypto client can always be built. *)
Definition crypto_builds (env : Env) : Prop :=
  forall tr, exists c, crypto_New env tr = Ok c.

(** Nobody else holds the lock. *)
Definition lock_available (bc : Client) : Prop :=
  forall tr w, Client_SetWritable bc tr w <> Some ErrAlreadyRunning.

(** Every load attempt fails. *)
Definition load_always_fails (env : Env) (bc : Client) : Prop :=
  forall tr pw c, exists e, safe_Load env tr pw bc c = Err e.

(** ** Concrete collaborators *)

Module Sample.

Definition pw_good : bytes := String.list_byte_of_string "correct-horse".
Definition pw_bad : bytes := String.list_byte_of_string "wrong-password".

Definition the_safe : Safe := {| safe_tag := 0; Safe_Init := fun _ => None |}.
Definition the_crypto : CryptoClient := {| crypto_tag := 0 |}.

(** A backend that holds a safe and whose lock is free. *)
Definition stored : Client :=
  {| Client_Load := fun _ => Ok pw_good;
     Client_SetWritable := fun _ _ => None;
     Client_SafeLocation := fun _ => "pick.safe" |}.

(** A backend that holds nothing yet. *)
Definition empty : Client :=
  {| Client_Load := fun _ => Err (ErrOther "safe not found");
     Client_SetWritable := fun _ _ => None;
     Client_SafeLocation := fun _ => "pick.safe" |}.

(** A backend that holds a safe but cannot take its lock, for a reason
    other than another running instance. *)
Definition read_only : Client :=
  {| Client_Load := fun _ => Ok pw_good;
     Client_SetWritable := fun _ _ => Some (ErrOther "read-only file system");
     Client_SafeLocation := fun _ => "pick.safe" |}.

(** A backend that reports, in the spec's way, that nothing is stored. *)
Definition uninitialized : Client :=
  {| Client_Load := fun _ => Err ErrNotInitialized;
     Client_SetWritable := fun _ _ => None;
     Client_SafeLocation := fun _ => "pick.safe" |}.

(** A backend that holds a safe which cannot be read just now: its
    [Load] fails, and not with the NotInitialized condition. *)
Definition unreadable_store : Client :=
  {| Client_Load := fun _ => Err (ErrOther "permission denied");
     Client_SetWritable := fun _ _ => None;
     Client_SafeLocation := fun _ => "pick.safe" |}.

(** A backend whose lock another instance holds. *)
Definition locked : Client :=
  {| Client_Load := fun _ => Ok pw_good;
     Client_SetWritable := fun _ w => if w then Some ErrAlreadyRunning else None;
     Client_SafeLocation := fun _ => "pick.safe" |}.

(** A backend that holds nothing yet and cannot take its lock either. *)
Definition empty_read_only : Client :=
  {| Client_Load := fun _ => Err (ErrOther "safe not found");
     Client_SetWritable := fun _ _ => Some (ErrOther "read-only file system");
     Client_SafeLocation := fun _ => "pick.safe" |}.

(** The user types [answers] in turn, then closes the input. *)
Definition typed (answers : list bytes) (tr : trace) : result foreign_error bytes :=
  match nth_error answers (count is_prompt tr) with
  | Some pw => Ok pw
  | None => Err (ErrOther "EOF")
  end.

(** A user who keeps typing the wrong password. *)
Definition wrong_password (bc : Client) : Env :=
  {| backends_New := fun _ => Ok bc;
     crypto_New := fun _ => Ok the_crypto;
     utils_GetPasswordInput := fun _ _ => Ok pw_bad;
     safe_Load := fun _ _ _ _ => Err ErrAuthenticationFailed;
     strconv_Quote := fun s => s |}.

(** A user who types the wrong password once and then closes the input. *)
Definition impatient (bc : Client) : Env :=
  {| backends_New := fun _ => Ok bc;
     crypto_New := fun _ => Ok the_crypto;
     utils_GetPasswordInput := fun tr _ => typed [pw_bad] tr;
     safe_Load := fun _ _ _ _ => Err ErrAuthenticationFailed;
     strconv_Quote := fun s => s |}.

(** The payload cannot be read at all: [safe.Load] fails before any
    decryption, with an error that is not an authentication failure. *)
Definition unreadable (bc : Client) : Env :=
  {| backends_New := fun _ => Ok bc;
     crypto_New := fun _ => Ok the_crypto;
     utils_GetPasswordInput := fun _ _ => Ok pw_good;
     safe_Load := fun _ _ _ _ => Err (ErrOther "unexpected end of file");
     strconv_Quote := fun s => s |}.

(** The payload cannot be read at the first attempt and can at the
    second. *)
Definition flaky (bc : Client) : Env :=
  {| backends_New := fun _ => Ok bc;
     crypto_New := fun _ => Ok the_crypto;
     utils_GetPasswordInput := fun _ _ => Ok pw_good;
     safe_Load := fun tr _ _ _ =>
       match count is_safe_load tr with
       | O => Err (ErrOther "unexpected end of file")
       | S _ => Ok the_safe
       end;
     strconv_Quote := fun s => s |}.

(** Everything works; the user types [answers]. *)
Definition cooperative (bc : Client) (answers : list bytes) : Env :=
  {| backends_New := fun _ => Ok bc;
     crypto_New := fun _ => Ok the_crypto;
     utils_GetPasswordInput := fun tr _ => typed answers tr;
     safe_Load := fun _ _ _ _ => Ok the_safe;
     strconv_Quote := fun s => s |}.

(** Three commands: one that succeeds, one that rejects its arguments and
    one that fails. *)
Definition cmd_ok : CommandFunc := fun _ _ => ret None.
Definition cmd_usage : CommandFunc :=
  fun _ _ => ret (Some (Foreign ErrInvalidCommandUsage)).
Definition cmd_fail : CommandFunc :=
  fun _ _ => ret (Some (New already_initialized_msg)).

Definition no_flags : Command := {| Flags := [] |}.

End Sample.

(** ** What becomes of an error

    A call [ev] of a run returned the error [e]; [post] are the calls the
    run made after it and [r] is what the run returned. *)

(** In [LoadWithBackendClient] and [Load].  Of the errors of
    [SetWritable] only [ErrAlreadyRunning] ends the run; after any other
    the run goes on.  A failed [safe.Load] ends the run, or a new pass
    follows it.  A failed [backendClient.Load] ends [Load] with "not yet
    initialized".  Every other error ends the run and is what the run
    returns. *)
Definition loader_policy (r : result error Safe) (ev : event) (e : foreign_error)
    (post : trace) : Prop :=
  match ev with
  | EvSetWritable _ _ =>
      (e = ErrAlreadyRunning -> post = [] /\ r = Err (Foreign e)) /\
      (e <> ErrAlreadyRunning -> post <> [])
  | EvSafeLoad _ _ =>
      (post = [] /\ r = Err (Foreign e)) \/
      (exists w a rest, post = EvSetWritable w a :: rest)
  | EvBackendLoad _ => post = [] /\ r = Err (New not_initialized_msg)
  | _ => post = [] /\ r = Err (Foreign e)
  end.

(** In [initSafe].  After a failed [backendClient.Load] the run goes on
    to ask for the lock; [SetWritable] is as in the loader; every other
    error ends the run and is what the run returns. *)
Definition init_policy (r : option error) (ev : event) (e : foreign_error)
    (post : trace) : Prop :=
  match ev with
  | EvSetWritable _ _ =>
      (e = ErrAlreadyRunning -> post = [] /\ r = Some (Foreign e)) /\
      (e <> ErrAlreadyRunning -> post <> [])
  | EvBackendLoad _ => exists a rest, post = EvSetWritable true a :: rest
  | _ => post = [] /\ r = Some (Foreign e)
  end.

(** [P] holds of every failed call of [evs] and of the calls after it. *)
Fixpoint each_failure (P : event -> foreign_error -> trace -> Prop) (evs : trace)
    : Prop :=
  match evs with
  | [] => True
  | ev :: post =>
      (forall e, failure ev = Some e -> P ev e post) /\ each_failure P post
  end.

(** A call that did not fail, or a [SetWritable] whose error is dropped. *)
Definition goes_on (ev : event) : bool :=
  match ev with
  | EvSetWritable _ (Some e) => negb (foreign_error_eqb e ErrAlreadyRunning)
  | _ => match failure ev with None => true | Some _ => false end
  end.

(** The answers after which [initSafe] makes another call: an error
    from [backendClient.Load], anything but [ErrAlreadyRunning] from
    [SetWritable], and no error from every other call. *)
Definition init_goes_on (ev : event) : bool :=
  match ev with
  | EvBackendLoad (Some _) => true
  | EvBackendLoad None => false
  | EvSetWritable _ (Some e) => negb (foreign_error_eqb e ErrAlreadyRunning)
  | _ => match failure ev with None => true | Some _ => false end
  end.

(** ** More readings of a history *)

Definition is_println (ev : event) : bool :=
  match ev with EvPrintln _ => true | _ => false end.

Definition is_safe_init (ev : event) : bool :=
  match ev with EvSafeInit _ => true | _ => false end.

Definition is_crypto_new (ev : event) : bool :=
  match ev with EvCryptoNew _ => true | _ => false end.

(** No [SetWritable] other than [SetWritable(w)]. *)
Definition asks_lock_as (w : bool) (ev : event) : bool :=
  match ev with EvSetWritable w' _ => Bool.eqb w' w | _ => true end.

(** No [safe.Load] with a password other than [pw]. *)
Definition loads_with (pw : bytes) (ev : event) : bool :=
  match ev with EvSafeLoad p _ => bytes_Equal p pw | _ => true end.

(** A request for the write lock. *)
Definition takes_lock (ev : event) : bool :=
  match ev with EvSetWritable true _ => true | _ => false end.

(** A [SetWritable] that found the lock taken. *)
Definition lock_contended (ev : event) : bool :=
  match ev with EvSetWritable _ (Some ErrAlreadyRunning) => true | _ => false end.

(** How the calls of a run of [LoadWithBackendClient] relate to the
    loader before ([sl]) and after ([sl']). *)
Record run_shape (sl : safeLoader) (sl' : safeLoader) (r : result error Safe)
    (evs : trace) : Prop := {
  shape_passes :
    Z.of_nat (count is_set_writable evs) = loadTries sl' - loadTries sl + 1;
  shape_max : maxLoadTries sl' = maxLoadTries sl;
  shape_lock : forallb (asks_lock_as (writable sl)) evs = true;
  shape_loads : (count is_safe_load evs <= count is_set_writable evs)%nat;
  shape_prompts : (count is_prompt evs <= count is_set_writable evs)%nat;
  shape_cached :
    forall pw, password sl = Some pw ->
               (count is_prompt evs < count is_set_writable evs)%nat;
  shape_success :
    forall s, r = Ok s ->
              exists pw, password sl' = Some pw /\
                         last evs EvUsage = EvSafeLoad pw None;
}.

(** * Properties *)

(** Case analysis on the answers of the collaborators, in call order. *)
Ltac answer :=
  cbv beta iota zeta;
  cbn [negb err_of maxLoadTries loadTries writable password set_password];
  match goal with
  | |- context [backends_New ?e ?t] =>
      destruct (backends_New e t) eqn:?
  | |- context [Client_Load ?c ?t] =>
      destruct (Client_Load c t) eqn:?
  | |- context [Client_SetWritable ?c ?t ?w] =>
      destruct (Client_SetWritable c t w) as [[ | | | | ?]|] eqn:?
  | |- context [match password ?sl with _ => _ end] =>
      destruct (password sl) eqn:?
  | |- context [utils_GetPasswordInput ?e ?t ?m] =>
      destruct (utils_GetPasswordInput e t m) eqn:?
  | |- context [bytes_Equal ?a ?b] =>
      destruct (bytes_Equal a b) eqn:?
  | |- context [crypto_New ?e ?t] =>
      destruct (crypto_New e t) eqn:?
  | |- context [safe_Load ?e ?t ?p ?c ?k] =>
      destruct (safe_Load e t p c k) eqn:?
  | |- context [Safe_Init ?s ?t] =>
      destruct (Safe_Init s t) eqn:?
  | |- context [Z.gtb ?a ?b] =>
      destruct (Z.gtb a b) eqn:?
  end.

Ltac run_body f :=
  unfold f, readMasterPassConfirmed, GetPasswordInput, newCryptoClient,
    newBackendClient, bind, call, emit, ret;
  repeat answer; cbv beta iota zeta; cbn [negb err_of].

Ltac trace_eq := repeat rewrite <- app_assoc; reflexivity.

(** Closed side conditions on concrete loaders. *)
Ltac by_computation :=
  vm_compute; repeat split; try reflexivity; intros; discriminate.

(** Answers ruled out by the assumptions of the retry bound. *)
Ltac impossible_answer :=
  match goal with
  | H : Client_SetWritable ?b ?t ?w = Some ErrAlreadyRunning, L : lock_available ?b |- _ =>
      exfalso; exact (L t w H)
  | H : utils_GetPasswordInput ?e ?t ?m = Err _, P : prompt_answers ?e |- _ =>
      destruct (P t m); congruence
  | H : crypto_New ?e ?t = Err _, P : crypto_builds ?e |- _ =>
      destruct (P t); congruence
  | H : safe_Load ?e ?t ?p ?b ?c = Ok _, P : load_always_fails ?e ?b |- _ =>
      destruct (P t p c); congruence
  end.

(** ** Arithmetic of Go's [int] *)

Lemma wrap_in_range (z : Z) : GoInt.in_range (GoInt.wrap z).
Proof.
  unfold GoInt.in_range, GoInt.wrap, GoInt.min_int, GoInt.max_int.
  pose proof (Z.mod_pos_bound (z - -9223372036854775808) 18446744073709551616).
  lia.
Qed.

Lemma wrap_id (z : Z) : GoInt.in_range z -> GoInt.wrap z = z.
Proof.
  unfold GoInt.in_range, GoInt.wrap, GoInt.min_int, GoInt.max_int. intros Hz.
  rewrite Z.mod_small; lia.
Qed.

Lemma incr_in_range (z : Z) : GoInt.in_range (GoInt.incr z).
Proof. apply wrap_in_range. Qed.

(** Below another [int] the increment does not wrap. *)
Lemma incr_below (z hi : Z) :
  GoInt.in_range z -> GoInt.in_range hi -> z < hi -> GoInt.incr z = z + 1.
Proof.
  unfold GoInt.incr. intros Hz Hhi Hlt. apply wrap_id.
  unfold GoInt.in_range in *. lia.
Qed.

Lemma incr_max_int : GoInt.incr GoInt.max_int = GoInt.min_int.
Proof. reflexivity. Qed.

(** ** Equality tests *)

Lemma bytes_Equal_eq (a b : bytes) : bytes_Equal a b = true <-> a = b.
Proof.
  revert b. induction a as [|x a IH]; intros [|y b]; cbn; split;
    try discriminate; try reflexivity.
  - intros H. apply andb_true_iff in H as [Hx Hab].
    apply Byte.byte_dec_bl in Hx. apply IH in Hab. congruence.
  - intros H. injection H as -> ->. apply andb_true_iff. split.
    + apply Byte.byte_dec_lb. reflexivity.
    + apply IH. reflexivity.
Qed.

Lemma foreign_error_eqb_eq (a b : foreign_error) :
  foreign_error_eqb a b = true <-> a = b.
Proof.
  destruct a, b; cbn; split; try discriminate; try reflexivity.
  - intros H. apply String.eqb_eq in H. congruence.
  - intros H. injection H as ->. apply String.eqb_refl.
Qed.

Lemma error_eqb_eq (a b : error) : error_eqb a b = true <-> a = b.
Proof.
  destruct a, b; cbn; split; try discriminate.
  - intros H. apply foreign_error_eqb_eq in H. congruence.
  - intros H. injection H as ->. apply foreign_error_eqb_eq. reflexivity.
  - intros H. apply String.eqb_eq in H. congruence.
  - intros H. injection H as ->. apply String.eqb_refl.
Qed.

(** ** Counting events *)

Lemma count_app (p : event -> bool) (a b : trace) :
  count p (a ++ b) = (count p a + count p b)%nat.
Proof. unfold count. rewrite filter_app, length_app. reflexivity. Qed.

Lemma count_one (p : event -> bool) (ev : event) :
  count p [ev] = if p ev then 1%nat else 0%nat.
Proof. unfold count. simpl. destruct (p ev); reflexivity. Qed.

Lemma last_app_cons {A} (a : list A) (x : A) (b : list A) (d : A) :
  last (a ++ x :: b) d = last (x :: b) d.
Proof.
  induction a as [|y a IH]; [reflexivity |].
  cbn [app]. rewrite <- IH. cbn. destruct (a ++ x :: b) eqn:E; [|reflexivity].
  destruct a; discriminate.
Qed.

Lemma removelast_app_cons {A} (a : list A) (x : A) (b : list A) :
  removelast (a ++ x :: b) = a ++ removelast (x :: b).
Proof. apply removelast_app. discriminate. Qed.

(** ** Some runs *)

(** The right password at the first prompt. *)
Example unlock_at_once :
  Load (Sample.cooperative Sample.stored [Sample.pw_good]) (newSafeLoader true) []
  = (Some ({| writable := true; password := Some Sample.pw_good;
              maxLoadTries := 0; loadTries := 0 |},
           Ok Sample.the_safe),
     [EvBackendsNew None; EvBackendLoad None; EvSetWritable true None;
      EvSafeLocation; EvGetPasswordInput (unlock_prompt "pick.safe") None;
      EvCryptoNew None; EvSafeLoad Sample.pw_good None]).
Proof. vm_compute. reflexivity. Qed.

(** Another instance holds the lock: nothing is asked of the user. *)
Example unlock_contended :
  Load (Sample.cooperative Sample.locked [Sample.pw_good])
    (RememberPassword (newSafeLoader true)) []
  = (Some (RememberPassword (newSafeLoader true), Err (Foreign ErrAlreadyRunning)),
     [EvBackendsNew None; EvBackendLoad None;
      EvSetWritable true (Some ErrAlreadyRunning)]).
Proof. vm_compute. reflexivity. Qed.

(** The user gives up at the second prompt: the input error is returned
    although a retry was left. *)
Example unlock_abandoned :
  LoadWithBackendClient (Sample.impatient Sample.stored)
    (RememberPassword (RememberPassword (newSafeLoader false))) Sample.stored []
  = (Some ({| writable := false; password := None;
              maxLoadTries := 2; loadTries := 1 |},
           Err (Foreign (ErrOther "EOF"))),
     [EvSetWritable false None; EvSafeLocation;
      EvGetPasswordInput (unlock_prompt "pick.safe") None; EvCryptoNew None;
      EvSafeLoad Sample.pw_bad (Some ErrAuthenticationFailed);
      EvSetWritable false None; EvSafeLocation;
      EvGetPasswordInput (unlock_prompt "pick.safe") (Some (ErrOther "EOF"))]).
Proof. vm_compute. reflexivity. Qed.

(** A first initialisation. *)
Example init_empty_backend :
  initSafe (Sample.cooperative Sample.empty [Sample.pw_good; Sample.pw_good]) []
  = (None,
     [EvBackendsNew None; EvBackendLoad (Some (ErrOther "safe not found"));
      EvSetWritable true None;
      EvGetPasswordInput (set_prompt false) None;
      EvGetPasswordInput (confirm_prompt false) None;
      EvCryptoNew None; EvSafeLoad Sample.pw_good None; EvSafeInit None;
      EvPrintln "pick initialized"]).
Proof. vm_compute. reflexivity. Qed.

(** ** The body of [LoadWithBackendClient] *)

Lemma LoadWithBackendClient_fuel_unfold env fuel sl bc tr :
  LoadWithBackendClient_fuel env (S fuel) sl bc tr =
  (o <- attempt env sl bc ;; resume env fuel bc o) tr.
Proof.
  cbn [LoadWithBackendClient_fuel].
  run_body attempt; reflexivity.
Qed.

(** What one pass does, whatever the collaborators answer. *)
Lemma attempt_cases env sl bc tr :
  exists o evs,
    attempt env sl bc tr = (o, tr ++ evs) /\
    (count is_safe_load evs <= 1)%nat /\
    (count is_prompt evs <= 1)%nat /\
    match o with
    | Done sl' r =>
        maxLoadTries sl' = maxLoadTries sl /\ loadTries sl' = loadTries sl /\
        writable sl' = writable sl /\
        match r with
        | Ok _ => forallb passed_over evs = true
        | Err x =>
            exists e, x = Foreign e /\ failure (last evs EvUsage) = Some e /\
                      forallb passed_over (removelast evs) = true
        end
    | Again sl' =>
        maxLoadTries sl > loadTries sl /\ sl' = retried sl /\
        count is_safe_load evs = 1%nat /\ forallb passed_over evs = true
    end.
Proof.
  run_body attempt;
    do 2 eexists; (split; [trace_eq |]);
    repeat rewrite count_app; repeat rewrite count_one; cbn;
    repeat split; try lia; try reflexivity;
    try (eexists; repeat split; reflexivity).
  all: cbn in *; lia.
Qed.

Lemma retried_wf sl : wf_loader sl -> wf_loader (retried sl).
Proof.
  intros [Hmax _]. split; cbn; [exact Hmax | apply incr_in_range].
Qed.

(** The self-call is made on a loader with one retry less to spend. *)
Lemma retried_loadTries sl :
  wf_loader sl -> maxLoadTries sl > loadTries sl ->
  loadTries (retried sl) = loadTries sl + 1.
Proof.
  intros [Hmax Hlt] Hgt. cbn.
  apply (incr_below _ (maxLoadTries sl)); [assumption | assumption | lia].
Qed.

Lemma retried_depth sl :
  wf_loader sl -> maxLoadTries sl > loadTries sl ->
  LoadWithBackendClient_depth sl = S (LoadWithBackendClient_depth (retried sl)).
Proof.
  intros Hwf Hgt. unfold LoadWithBackendClient_depth.
  rewrite (retried_loadTries sl Hwf Hgt). cbn [maxLoadTries retried].
  f_equal. rewrite <- Z2Nat.inj_succ by lia. f_equal. lia.
Qed.

(** Enough fuel gives a result, and the result has [run_facts]. *)
Lemma LoadWithBackendClient_fuel_run env bc :
  forall fuel sl tr,
    wf_loader sl -> (LoadWithBackendClient_depth sl <= fuel)%nat ->
    exists sl' r evs,
      LoadWithBackendClient_fuel env fuel sl bc tr = (Some (sl', r), tr ++ evs) /\
      run_facts sl sl' r evs.
Proof.
  induction fuel as [|fuel IH]; intros sl tr Hwf Hfuel.
  - unfold LoadWithBackendClient_depth in Hfuel. lia.
  - rewrite LoadWithBackendClient_fuel_unfold. unfold bind.
    destruct (attempt_cases env sl bc tr) as (o & evs & -> & Hl & Hp & Ho).
    destruct o as [sl' r | sl']; cbn [resume].
    + destruct Ho as (Hm & Ht & Hw & He).
      exists sl', r, evs. split; [reflexivity |].
      destruct Hwf as [W1 W2].
      constructor; unfold wf_loader, LoadWithBackendClient_depth in *;
        try rewrite Hm; try rewrite Ht; auto; try lia.
      intros m ->. destruct He as (e & He & _). discriminate.
    + destruct Ho as (Hgt & -> & Hone & Hev).
      pose proof (retried_depth sl Hwf Hgt) as Hd.
      pose proof (retried_loadTries sl Hwf Hgt) as Hlt.
      destruct (IH (retried sl) (tr ++ evs) (retried_wf sl Hwf) ltac:(lia))
        as (sl' & r & evs' & -> & F).
      exists sl', r, (evs ++ evs'). split; [rewrite app_assoc; reflexivity |].
      destruct F. cbn [maxLoadTries writable retried] in *.
      constructor; auto; try rewrite count_app; try lia.
      destruct r as [s | x].
      * rewrite forallb_app, Hev. assumption.
      * destruct run_errors0 as (e & -> & Hlast & Hrest).
        exists e. split; [reflexivity |].
        destruct evs' as [|ev evs']; [discriminate Hlast |].
        rewrite last_app_cons, removelast_app_cons, forallb_app, Hev.
        split; assumption.
Qed.

(** Fuel beyond what a run needs changes nothing. *)
Lemma LoadWithBackendClient_fuel_more env bc :
  forall fuel fuel' sl tr out tr',
    LoadWithBackendClient_fuel env fuel sl bc tr = (Some out, tr') ->
    (fuel <= fuel')%nat ->
    LoadWithBackendClient_fuel env fuel' sl bc tr = (Some out, tr').
Proof.
  induction fuel as [|fuel IH]; intros fuel' sl tr out tr' Hrun Hle.
  - discriminate Hrun.
  - destruct fuel' as [|fuel']; [lia |].
    rewrite LoadWithBackendClient_fuel_unfold in *. unfold bind in *.
    destruct (attempt env sl bc tr) as [[sl1 r | sl1] tr1]; cbn [resume] in *.
    + exact Hrun.
    + apply IH; [exact Hrun | lia].
Qed.

Lemma LoadWithBackendClient_run env bc sl tr :
  wf_loader sl ->
  exists sl' r evs,
    LoadWithBackendClient env sl bc tr = (Some (sl', r), tr ++ evs) /\
    run_facts sl sl' r evs.
Proof.
  intros Hwf. apply LoadWithBackendClient_fuel_run; [exact Hwf | lia].
Qed.

(** ** Termination of the retry recursion *)

(** C8.  A call of [LoadWithBackendClient] on a loader whose counters are
    non-negative Go ints terminates, for every behaviour of the
    collaborators: each self-call is made on a loader for which
    [maxLoadTries - loadTries] is strictly smaller and still non-negative,
    so a recursion depth of [maxLoadTries - loadTries + 1] always yields a
    result (and any larger bound yields the same one), and the run makes
    at most [maxLoadTries + 1] calls of [safe.Load]. *)
Theorem LoadWithBackendClient_terminates env bc sl tr :
  wf_loader sl -> 0 <= loadTries sl -> 0 <= maxLoadTries sl ->
  (forall tr0 sl1 tr1,
      attempt env sl bc tr0 = (Again sl1, tr1) ->
      wf_loader sl1 /\ 0 <= loadTries sl1 /\
      maxLoadTries sl1 = maxLoadTries sl /\
      0 <= maxLoadTries sl1 - loadTries sl1 < maxLoadTries sl - loadTries sl) /\
  exists sl' r evs,
    LoadWithBackendClient env sl bc tr = (Some (sl', r), tr ++ evs) /\
    (forall fuel, (LoadWithBackendClient_depth sl <= fuel)%nat ->
       LoadWithBackendClient_fuel env fuel sl bc tr = (Some (sl', r), tr ++ evs)) /\
    Z.of_nat (count is_safe_load evs) <= maxLoadTries sl + 1.
Proof.
  intros Hwf Hlt Hmax. split.
  - intros tr0 sl1 tr1 Hatt.
    destruct (attempt_cases env sl bc tr0) as (o & evs & Heq & _ & _ & Ho).
    rewrite Hatt in Heq. injection Heq as <- _.
    destruct Ho as (Hgt & -> & _).
    pose proof (retried_loadTries sl Hwf Hgt) as Hstep.
    split; [apply retried_wf; exact Hwf |].
    rewrite Hstep. cbn [maxLoadTries retried]. lia.
  - destruct (LoadWithBackendClient_run env bc sl tr Hwf) as (sl' & r & evs & Hrun & F).
    exists sl', r, evs. split; [exact Hrun |]. split.
    + intros fuel Hfuel.
      apply (LoadWithBackendClient_fuel_more env bc _ _ _ _ _ _ Hrun Hfuel).
    + pose proof (run_loads _ _ _ _ F) as Hn.
      unfold LoadWithBackendClient_depth in Hn. lia.
Qed.

Lemma LoadWithBackendClient_terminates_witness :
  let sl := RememberPassword (newSafeLoader true) in
  (wf_loader sl /\ 0 <= loadTries sl /\ 0 <= maxLoadTries sl) /\
  exists sl' r evs,
    LoadWithBackendClient (Sample.wrong_password Sample.stored) sl Sample.stored []
      = (Some (sl', r), [] ++ evs) /\
    Z.of_nat (count is_safe_load evs) <= maxLoadTries sl + 1.
Proof.
  cbv zeta.
  assert (H : wf_loader (RememberPassword (newSafeLoader true)) /\
              0 <= loadTries (RememberPassword (newSafeLoader true)) /\
              0 <= maxLoadTries (RememberPassword (newSafeLoader true)))
    by by_computation.
  split; [exact H |].
  destruct H as (Hwf & Hlt & Hmax).
  destruct (LoadWithBackendClient_terminates
              (Sample.wrong_password Sample.stored) Sample.stored
              (RememberPassword (newSafeLoader true)) [] Hwf Hlt Hmax)
    as (_ & sl' & r & evs & Hrun & _ & Hcount).
  exists sl', r, evs. split; assumption.
Defined.

(** ** The retry bound *)

(** One pass of a loader without a cached password, when the lock is
    free, the user answers and the load fails: one prompt, one load, and
    the outcome depends on the budget alone. *)
Lemma attempt_wrong_password env bc sl tr :
  lock_available bc -> prompt_answers env -> crypto_builds env ->
  load_always_fails env bc ->
  password sl = None ->
  exists pw e evs,
    (maxLoadTries sl > loadTries sl ->
       attempt env sl bc tr = (Again (retried sl), tr ++ evs)) /\
    (maxLoadTries sl <= loadTries sl ->
       attempt env sl bc tr =
         (Done (set_password sl (Some pw)) (Err (Foreign e)), tr ++ evs)) /\
    count is_prompt evs = 1%nat /\ count is_safe_load evs = 1%nat /\
    last evs EvUsage = EvSafeLoad pw (Some e) /\
    (exists tr0 c, safe_Load env tr0 pw bc c = Err e).
Proof.
  intros Hlock Hprompt Hcrypto Hload Hnone.
  run_body attempt; try impossible_answer; try congruence;
    cbn [maxLoadTries loadTries set_password] in *;
    do 3 eexists;
    (split; [intros Hcmp | split; [intros Hcmp | ]]);
    try (exfalso; lia);
    try (f_equal; trace_eq);
    repeat split; eauto.
Qed.

Lemma wrong_password_run env bc :
  lock_available bc -> prompt_answers env -> crypto_builds env ->
  load_always_fails env bc ->
  forall (k : nat) sl tr,
    wf_loader sl -> password sl = None ->
    maxLoadTries sl - loadTries sl = Z.of_nat k ->
    exists sl' pw e evs,
      LoadWithBackendClient_fuel env (S k) sl bc tr
        = (Some (sl', Err (Foreign e)), tr ++ evs) /\
      count is_prompt evs = S k /\ count is_safe_load evs = S k /\
      last evs EvUsage = EvSafeLoad pw (Some e) /\
      (exists tr0 c, safe_Load env tr0 pw bc c = Err e) /\
      loadTries sl' = maxLoadTries sl.
Proof.
  intros Hlock Hprompt Hcrypto Hload.
  induction k as [|k IH]; intros sl tr Hwf Hnone Hdist;
    rewrite LoadWithBackendClient_fuel_unfold; unfold bind;
    destruct (attempt_wrong_password env bc sl tr Hlock Hprompt Hcrypto Hload Hnone)
      as (pw & e & evs & Hagain & Hdone & Hp & Hl & Hlast & Hsrc).
  - rewrite Hdone by lia. cbn [resume]. unfold ret.
    exists (set_password sl (Some pw)), pw, e, evs.
    repeat split; try assumption. cbn. lia.
  - assert (Hgt : maxLoadTries sl > loadTries sl) by lia.
    rewrite (Hagain Hgt). cbn [resume].
    pose proof (retried_loadTries sl Hwf Hgt) as Hstep.
    destruct (IH (retried sl) (tr ++ evs) (retried_wf sl Hwf) eq_refl)
      as (sl' & pw' & e' & evs' & Hrun & Hp' & Hl' & Hlast' & Hsrc' & Hend).
    { rewrite Hstep. cbn [maxLoadTries retried]. lia. }
    exists sl', pw', e', (evs ++ evs').
    rewrite Hrun, app_assoc, !count_app, Hp, Hl, Hp', Hl'.
    repeat split; try assumption.
    destruct evs' as [|ev evs']; [discriminate Hlast' |].
    rewrite last_app_cons. exact Hlast'.
Qed.

(** A fresh loader after [n] calls of [RememberPassword]. *)
Lemma RememberPassword_iter (n : nat) (w : bool) :
  Z.of_nat n <= GoInt.max_int ->
  Nat.iter n RememberPassword (newSafeLoader w) =
    {| writable := w; password := None; maxLoadTries := Z.of_nat n; loadTries := 0 |}.
Proof.
  induction n as [|n IH]; intros Hn; [reflexivity |].
  rewrite Nat.iter_succ, IH by lia.
  unfold RememberPassword, set_maxLoadTries. cbn [writable password maxLoadTries loadTries].
  f_equal. rewrite (incr_below _ GoInt.max_int).
  - lia.
  - unfold GoInt.in_range, GoInt.min_int, GoInt.max_int in *. lia.
  - unfold GoInt.in_range, GoInt.min_int, GoInt.max_int. lia.
  - lia.
Qed.

(** C1.  A fresh loader on which [RememberPassword] was called [N] times
    has retry budget [N].  When the lock is free, the user answers every
    prompt, the crypto client can be built and every [safe.Load] fails,
    [LoadWithBackendClient] prompts exactly [N + 1] times, calls
    [safe.Load] exactly [N + 1] times, and returns to its caller the error
    of the last [safe.Load], having used up the whole budget. *)
Theorem retry_bound env bc (N : nat) (w : bool) tr :
  Z.of_nat N <= GoInt.max_int ->
  lock_available bc -> prompt_answers env -> crypto_builds env ->
  load_always_fails env bc ->
  exists sl' pw e evs,
    LoadWithBackendClient env (Nat.iter N RememberPassword (newSafeLoader w)) bc tr
      = (Some (sl', Err (Foreign e)), tr ++ evs) /\
    count is_prompt evs = S N /\
    count is_safe_load evs = S N /\
    last evs EvUsage = EvSafeLoad pw (Some e) /\
    (exists tr0 c, safe_Load env tr0 pw bc c = Err e) /\
    loadTries sl' = Z.of_nat N.
Proof.
  intros HN Hlock Hprompt Hcrypto Hload.
  rewrite (RememberPassword_iter N w HN).
  unfold LoadWithBackendClient, LoadWithBackendClient_depth.
  cbn [maxLoadTries loadTries]. rewrite Z.sub_0_r, Nat2Z.id.
  apply (wrong_password_run env bc Hlock Hprompt Hcrypto Hload N).
  - unfold wf_loader, GoInt.in_range, GoInt.min_int, GoInt.max_int in *.
    cbn [maxLoadTries loadTries]. lia.
  - reflexivity.
  - cbn [maxLoadTries loadTries]. lia.
Qed.

Lemma retry_bound_witness :
  (Z.of_nat 2 <= GoInt.max_int /\
   lock_available Sample.stored /\
   prompt_answers (Sample.wrong_password Sample.stored) /\
   crypto_builds (Sample.wrong_password Sample.stored) /\
   load_always_fails (Sample.wrong_password Sample.stored) Sample.stored) /\
  exists sl' evs,
    LoadWithBackendClient (Sample.wrong_password Sample.stored)
      (Nat.iter 2 RememberPassword (newSafeLoader false)) Sample.stored []
      = (Some (sl', Err (Foreign ErrAuthenticationFailed)), evs) /\
    count is_prompt evs = 3%nat.
Proof.
  assert (HN : Z.of_nat 2 <= GoInt.max_int) by by_computation.
  assert (Hlock : lock_available Sample.stored) by (intros tr w; discriminate).
  assert (Hprompt : prompt_answers (Sample.wrong_password Sample.stored))
    by (intros tr msg; eexists; reflexivity).
  assert (Hcrypto : crypto_builds (Sample.wrong_password Sample.stored))
    by (intros tr; eexists; reflexivity).
  assert (Hload : load_always_fails (Sample.wrong_password Sample.stored) Sample.stored)
    by (intros tr pw c; eexists; reflexivity).
  split; [repeat split; assumption |].
  destruct (retry_bound (Sample.wrong_password Sample.stored) Sample.stored
              2 false [] HN Hlock Hprompt Hcrypto Hload)
    as (sl' & pw & e & evs & Hrun & Hp & _ & _ & (tr0 & c & Hsrc) & _).
  exists sl', evs. cbn in Hsrc. injection Hsrc as <-.
  split; assumption.
Defined.

(** ** [Load] *)

(** The three ways through [Load]. *)
Lemma Load_cases env sl tr :
  wf_loader sl ->
  (exists e,
      backends_New env tr = Err e /\
      Load env sl tr = (Some (sl, Err (Foreign e)), tr ++ [EvBackendsNew (Some e)])) \/
  (exists bc e,
      backends_New env tr = Ok bc /\
      Client_Load bc (tr ++ [EvBackendsNew None]) = Err e /\
      Load env sl tr =
        (Some (sl, Err (New not_initialized_msg)),
         tr ++ [EvBackendsNew None; EvBackendLoad (Some e)])) \/
  (exists bc data sl' r evs,
      backends_New env tr = Ok bc /\
      Client_Load bc (tr ++ [EvBackendsNew None]) = Ok data /\
      Load env sl tr =
        (Some (sl', r), tr ++ [EvBackendsNew None; EvBackendLoad None] ++ evs) /\
      LoadWithBackendClient env sl bc (tr ++ [EvBackendsNew None; EvBackendLoad None]) =
        (Some (sl', r), (tr ++ [EvBackendsNew None; EvBackendLoad None]) ++ evs) /\
      run_facts sl sl' r evs).
Proof.
  intros Hwf. unfold Load, newBackendClient, bind, call, ret.
  destruct (backends_New env tr) as [bc | e] eqn:Hnew; cbn [err_of].
  - destruct (Client_Load bc (tr ++ [EvBackendsNew None])) as [data | e] eqn:Hload;
      cbn [err_of].
    + right. right.
      destruct (LoadWithBackendClient_run env bc sl
                  (tr ++ [EvBackendsNew None; EvBackendLoad None]) Hwf)
        as (sl' & r & evs & Hrun & F).
      exists bc, data, sl', r, evs.
      split; [reflexivity |]. split; [exact Hload |].
      split; [| split; [exact Hrun | exact F]].
      replace ((tr ++ [EvBackendsNew None]) ++ [EvBackendLoad None])
        with (tr ++ [EvBackendsNew None; EvBackendLoad None]) by trace_eq.
      rewrite Hrun. f_equal. trace_eq.
    + right. left. exists bc, e.
      split; [reflexivity |]. split; [exact Hload |]. f_equal. trace_eq.
  - left. exists e. split; reflexivity.
Qed.

(** ** The invariant of the retry counters *)

(** C9.  [loadTries <= maxLoadTries] is an invariant of the loader: it
    holds of a loader made by [newSafeLoader]; [RememberPassword] keeps
    it (as long as the budget is below the largest Go int, where [++]
    does not wrap); every self-call of [LoadWithBackendClient] is made on
    a loader that has it; and [LoadWithBackendClient] and [Load] return
    with a loader that has it, for every behaviour of the collaborators. *)
Theorem tries_inv_invariant :
  (forall w, wf_loader (newSafeLoader w) /\ tries_inv (newSafeLoader w)) /\
  (forall sl,
      wf_loader sl -> tries_inv sl -> maxLoadTries sl < GoInt.max_int ->
      wf_loader (RememberPassword sl) /\ tries_inv (RememberPassword sl)) /\
  (forall env bc sl tr,
      wf_loader sl -> tries_inv sl ->
      (forall sl1 tr1,
          attempt env sl bc tr = (Again sl1, tr1) ->
          wf_loader sl1 /\ tries_inv sl1) /\
      (exists sl' r tr',
          LoadWithBackendClient env sl bc tr = (Some (sl', r), tr') /\
          wf_loader sl' /\ tries_inv sl')) /\
  (forall env sl tr,
      wf_loader sl -> tries_inv sl ->
      exists sl' r tr',
        Load env sl tr = (Some (sl', r), tr') /\ wf_loader sl' /\ tries_inv sl').
Proof.
  unfold tries_inv. split; [| split; [| split]].
  - intros w. split; [by_computation | cbn; lia].
  - intros sl [Wm Wt] Hinv Hmax.
    assert (Hincr : GoInt.incr (maxLoadTries sl) = maxLoadTries sl + 1).
    { apply (incr_below _ GoInt.max_int); [exact Wm | | exact Hmax].
      unfold GoInt.in_range, GoInt.min_int, GoInt.max_int. lia. }
    unfold wf_loader, RememberPassword. cbn [maxLoadTries loadTries set_maxLoadTries].
    rewrite Hincr. unfold GoInt.in_range in *. repeat split; lia.
  - intros env bc sl tr Hwf Hinv. split.
    + intros sl1 tr1 Hatt.
      destruct (attempt_cases env sl bc tr) as (o & evs & Heq & _ & _ & Ho).
      rewrite Hatt in Heq. injection Heq as <- _.
      destruct Ho as (Hgt & -> & _).
      split; [apply retried_wf; exact Hwf |].
      rewrite (retried_loadTries sl Hwf Hgt). cbn [maxLoadTries retried]. lia.
    + destruct (LoadWithBackendClient_run env bc sl tr Hwf)
        as (sl' & r & evs & Hrun & F).
      exists sl', r, (tr ++ evs). destruct F.
      split; [exact Hrun | split; [assumption | lia]].
  - intros env sl tr Hwf Hinv.
    destruct (Load_cases env sl tr Hwf)
      as [(e & _ & Hrun) | [(bc' & e & _ & _ & Hrun)
         | (bc' & data & sl' & r & evs & _ & _ & Hrun & _ & F)]].
    + eexists _, _, _. split; [exact Hrun |]. split; assumption.
    + eexists _, _, _. split; [exact Hrun |]. split; assumption.
    + eexists _, _, _. split; [exact Hrun |]. destruct F. split; [assumption | lia].
Qed.

Lemma tries_inv_invariant_witness :
  let sl := RememberPassword (newSafeLoader true) in
  (wf_loader sl /\ tries_inv sl /\ maxLoadTries sl < GoInt.max_int) /\
  tries_inv (RememberPassword sl) /\
  exists sl' r tr',
    Load (Sample.wrong_password Sample.stored) sl [] = (Some (sl', r), tr') /\
    tries_inv sl'.
Proof.
  cbv zeta.
  assert (H : wf_loader (RememberPassword (newSafeLoader true)) /\
              tries_inv (RememberPassword (newSafeLoader true)) /\
              maxLoadTries (RememberPassword (newSafeLoader true)) < GoInt.max_int)
    by by_computation.
  split; [exact H |].
  destruct H as (Hwf & Hinv & Hmax).
  destruct tries_inv_invariant as (_ & Hrem & _ & Hload).
  split; [apply (Hrem _ Hwf Hinv Hmax) |].
  destruct (Hload (Sample.wrong_password Sample.stored) _ [] Hwf Hinv)
    as (sl' & r & tr' & Hrun & _ & Hinv').
  exists sl', r, tr'. split; assumption.
Defined.

(** C4, as the code has it.  [Load] returns its "not yet initialized"
    error exactly when the backend client could be made and its [Load]
    returned an error, whichever error that is: the NotInitialized
    condition or any other, since the error is not looked at.  In that
    case the loader is left as it was and the only calls made are
    [backends.New] and [backendClient.Load]: no [SetWritable], no prompt,
    no [safe.Load]. *)
Theorem Load_not_initialized env sl tr :
  wf_loader sl ->
  exists sl' r evs,
    Load env sl tr = (Some (sl', r), tr ++ evs) /\
    (r = Err (New not_initialized_msg) <->
       exists bc e,
         backends_New env tr = Ok bc /\
         Client_Load bc (tr ++ [EvBackendsNew None]) = Err e) /\
    (r = Err (New not_initialized_msg) ->
       sl' = sl /\
       (exists e, evs = [EvBackendsNew None; EvBackendLoad (Some e)]) /\
       count is_set_writable evs = 0%nat /\
       count is_prompt evs = 0%nat /\
       count is_safe_load evs = 0%nat).
Proof.
  intros Hwf.
  destruct (Load_cases env sl tr Hwf)
    as [(e & Hnew & Hrun) | [(bc & e & Hnew & Hload & Hrun)
       | (bc & data & sl' & r & evs & Hnew & Hload & Hrun & _ & F)]].
  - eexists _, _, _. split; [exact Hrun |]. split; [split |].
    + discriminate.
    + intros (bc & e' & Hbc & _). congruence.
    + discriminate.
  - eexists _, _, _. split; [exact Hrun |]. split; [split |].
    + intros _. exists bc, e. split; assumption.
    + reflexivity.
    + intros _. split; [reflexivity |]. split; [exists e; reflexivity |].
      repeat split.
  - eexists _, _, _. split; [exact Hrun |].
    pose proof (run_foreign _ _ _ _ F not_initialized_msg) as Hnever.
    split; [split |].
    + intros Hr. contradiction.
    + intros (bc' & e' & Hbc & Hl). congruence.
    + intros Hr. contradiction.
Qed.

Lemma Load_not_initialized_witness :
  wf_loader (newSafeLoader true) /\
  Load (Sample.cooperative Sample.empty [Sample.pw_good]) (newSafeLoader true) []
    = (Some (newSafeLoader true, Err (New not_initialized_msg)),
       [EvBackendsNew None; EvBackendLoad (Some (ErrOther "safe not found"))]).
Proof.
  assert (Hwf : wf_loader (newSafeLoader true)) by by_computation.
  split; [exact Hwf |].
  destruct (Load_not_initialized (Sample.cooperative Sample.empty [Sample.pw_good])
              (newSafeLoader true) [] Hwf)
    as (sl' & r & evs & Hrun & [_ Hiff] & Hstop).
  assert (Hr : r = Err (New not_initialized_msg)).
  { apply Hiff. exists Sample.empty, (ErrOther "safe not found").
    split; reflexivity. }
  destruct (Hstop Hr) as (Hsl & (e & Hevs) & _).
  rewrite Hrun. subst sl' r evs. cbn [app].
  cbn in Hrun. injection Hrun as <-. reflexivity.
Defined.

(** C4, a run that goes against the sentence of the specification.  The
    backend holds a safe that cannot be read: its [Load] fails, and not
    with the NotInitialized condition.  [Load] reports "not yet
    initialized" all the same. *)
Lemma Load_on_unreadable_store :
  let denied := ErrOther "permission denied" in
  Client_Load Sample.unreadable_store [EvBackendsNew None] = Err denied /\
  foreign_error_eqb denied ErrNotInitialized = false /\
  Load (Sample.cooperative Sample.unreadable_store [Sample.pw_good])
    (newSafeLoader true) []
    = (Some (newSafeLoader true, Err (New not_initialized_msg)),
       [EvBackendsNew None; EvBackendLoad (Some denied)]).
Proof.
  cbv zeta. repeat split; vm_compute; reflexivity.
Qed.

(** ** [readMasterPassConfirmed] and [initSafe] *)

Lemma bytes_Equal_false (a b : bytes) : bytes_Equal a b = false -> a <> b.
Proof.
  intros H Heq. apply bytes_Equal_eq in Heq. congruence.
Qed.

(** Every way through [initSafe]. *)
Lemma initSafe_cases env tr :
  exists r evs,
    initSafe env tr = (r, tr ++ evs) /\
    (count is_prompt evs <= 2)%nat /\
    match r with
    | None =>
        forallb passed_over evs = true /\ count is_prompt evs = 2%nat /\
        last evs EvUsage = EvPrintln "pick initialized"
    | Some (Foreign e) =>
        failure (last evs EvUsage) = Some e /\
        forallb passed_over (removelast evs) = true
    | Some (New m) =>
        (m = already_initialized_msg /\ evs = [EvBackendsNew None; EvBackendLoad None]) \/
        (m = mismatch_msg /\ count is_prompt evs = 2%nat /\
         forallb passed_over evs = true)
    end.
Proof.
  run_body initSafe;
    do 2 eexists; (split; [trace_eq |]);
    repeat rewrite count_app; repeat rewrite count_one; cbn;
    (split; [lia |]);
    try (repeat split; reflexivity);
    try (left; split; reflexivity);
    try (right; repeat split; reflexivity).
Qed.

(** C3, as the code has it.  [initSafe] looks only at whether
    [backendClient.Load] returned an error.  When it returns data without
    an error, [initSafe] returns the "already initialized" error after
    [backends.New] and [backendClient.Load] and nothing else: it neither
    asks for the lock nor calls [s.Init()], so it writes nothing to the
    backend.  When it returns an error, the NotInitialized condition or
    any other, [initSafe] does not return "already initialized": it goes
    on to ask for the write lock. *)
Theorem initSafe_already_initialized env tr bc :
  backends_New env tr = Ok bc ->
  (forall data,
      Client_Load bc (tr ++ [EvBackendsNew None]) = Ok data ->
      exists evs,
        initSafe env tr = (Some (New already_initialized_msg), tr ++ evs) /\
        evs = [EvBackendsNew None; EvBackendLoad None] /\
        count is_backend_write evs = 0%nat /\
        count is_prompt evs = 0%nat /\
        count is_safe_load evs = 0%nat) /\
  (forall e,
      Client_Load bc (tr ++ [EvBackendsNew None]) = Err e ->
      exists r a rest,
        initSafe env tr =
          (r, tr ++ [EvBackendsNew None; EvBackendLoad (Some e);
                     EvSetWritable true a] ++ rest) /\
        r <> Some (New already_initialized_msg)).
Proof.
  intros Hnew. split.
  - intros data Hload.
    exists [EvBackendsNew None; EvBackendLoad None].
    split; [| repeat split].
    unfold initSafe, newBackendClient, bind, call, ret.
    rewrite Hnew. cbn [err_of]. rewrite Hload. cbn [err_of].
    f_equal. trace_eq.
  - intros e Hload.
    unfold initSafe, newBackendClient, bind, call, ret.
    rewrite Hnew. cbn [err_of]. rewrite Hload. cbn [err_of].
    run_body initSafe;
      do 3 eexists; (split; [f_equal; trace_eq | discriminate]).
Qed.

Lemma initSafe_already_initialized_witness :
  (backends_New (Sample.cooperative Sample.stored []) [] = Ok Sample.stored /\
   Client_Load Sample.stored ([] ++ [EvBackendsNew None]) = Ok Sample.pw_good) /\
  initSafe (Sample.cooperative Sample.stored []) []
    = (Some (New already_initialized_msg), [EvBackendsNew None; EvBackendLoad None]).
Proof.
  split; [split; reflexivity |].
  destruct (initSafe_already_initialized (Sample.cooperative Sample.stored []) []
              Sample.stored eq_refl) as (Hdata & _).
  destruct (Hdata Sample.pw_good eq_refl) as (evs & Hrun & Hevs & _).
  rewrite Hrun, Hevs. reflexivity.
Defined.

(** C3, a run that goes against the sentence of the specification.  The
    backend holds a safe that cannot be read: its [Load] fails, and not
    with the NotInitialized condition.  [initSafe] does not refuse: it
    takes the lock, asks for a new password, calls [s.Init()] and reports
    success. *)
Lemma initSafe_on_unreadable_store :
  let env := Sample.cooperative Sample.unreadable_store
               [Sample.pw_good; Sample.pw_good] in
  let denied := ErrOther "permission denied" in
  let evs :=
    [EvBackendsNew None; EvBackendLoad (Some denied);
     EvSetWritable true None;
     EvGetPasswordInput (set_prompt false) None;
     EvGetPasswordInput (confirm_prompt false) None;
     EvCryptoNew None; EvSafeLoad Sample.pw_good None; EvSafeInit None;
     EvPrintln "pick initialized"] in
  Client_Load Sample.unreadable_store [EvBackendsNew None] = Err denied /\
  foreign_error_eqb denied ErrNotInitialized = false /\
  initSafe env [] = (None, evs) /\
  count is_backend_write evs = 2%nat.
Proof.
  cbv zeta. repeat split; vm_compute; reflexivity.
Qed.

(** C7.  [readMasterPassConfirmed] prompts at most twice, first with the
    entry message and then with the confirmation message.  When both
    prompts return an input it has prompted exactly twice, and it returns
    the first input if the two are equal byte for byte and the mismatch
    error, without a password, if they differ.  It returns a password
    only in that way.  A run of [initSafe] that succeeds has prompted
    exactly twice. *)
Theorem readMasterPassConfirmed_twice env (n : bool) tr :
  let entry := EvGetPasswordInput (set_prompt n) None in
  let confirmation := EvGetPasswordInput (confirm_prompt n) None in
  exists r evs,
    readMasterPassConfirmed env n tr = (r, tr ++ evs) /\
    (count is_prompt evs <= 2)%nat /\
    (forall p1 p2,
        utils_GetPasswordInput env tr (set_prompt n) = Ok p1 ->
        utils_GetPasswordInput env (tr ++ [entry]) (confirm_prompt n) = Ok p2 ->
        evs = [entry; confirmation] /\
        (p1 = p2 -> r = Ok p1) /\
        (p1 <> p2 -> r = Err (New mismatch_msg))) /\
    (forall p,
        r = Ok p ->
        utils_GetPasswordInput env tr (set_prompt n) = Ok p /\
        utils_GetPasswordInput env (tr ++ [entry]) (confirm_prompt n) = Ok p /\
        evs = [entry; confirmation]) /\
    (forall tr0 evs0,
        initSafe env tr0 = (None, tr0 ++ evs0) -> count is_prompt evs0 = 2%nat).
Proof.
  cbv zeta.
  run_body readMasterPassConfirmed;
    do 2 eexists; (split; [trace_eq |]);
    (split; [repeat rewrite count_app; repeat rewrite count_one; cbn; lia |]);
    (split; [intros p1 p2 H1 H2 | split; [intros p Hr | intros tr0 evs0 Hinit]]);
    try discriminate;
    try (destruct (initSafe_cases env tr0) as (r0 & evs1 & Heq & _ & Hcase);
         rewrite Hinit in Heq; injection Heq as <- Hevs;
         apply app_inv_head in Hevs; subst evs1; apply Hcase).
  - injection H1 as <-. injection H2 as <-.
    match goal with H : bytes_Equal _ _ = true |- _ => apply bytes_Equal_eq in H; subst end.
    repeat split; intros; try reflexivity; contradiction.
  - injection Hr as <-.
    match goal with H : bytes_Equal _ _ = true |- _ => apply bytes_Equal_eq in H; subst end.
    repeat split.
  - injection H1 as <-. injection H2 as <-.
    match goal with H : bytes_Equal _ _ = false |- _ => apply bytes_Equal_false in H end.
    repeat split; intros; try reflexivity; contradiction.
Qed.

Lemma readMasterPassConfirmed_twice_witness :
  readMasterPassConfirmed
    (Sample.cooperative Sample.empty [Sample.pw_good; Sample.pw_bad]) false []
  = (Err (New mismatch_msg),
     [EvGetPasswordInput (set_prompt false) None;
      EvGetPasswordInput (confirm_prompt false) None]).
Proof.
  destruct (readMasterPassConfirmed_twice
              (Sample.cooperative Sample.empty [Sample.pw_good; Sample.pw_bad]) false [])
    as (r & evs & Hrun & _ & Hboth & _).
  destruct (Hboth Sample.pw_good Sample.pw_bad eq_refl eq_refl) as (Hevs & _ & Hne).
  rewrite Hrun, Hevs, Hne; [reflexivity |].
  intros H. vm_compute in H. discriminate H.
Defined.

(** ** The exit contract *)

(** C6.  [runCommand] runs the wrapped command and then leaves the
    process: with code 0 and no further output when the command returns
    no error; with code 1 after printing the usage text, and without
    printing the error, when the command returns
    [ErrInvalidCommandUsage]; with code 1 after printing the error when it
    returns any other error. *)
Theorem runCommand_exit (c : CommandFunc) (cmd : Command) (args : list string)
    tr (r : option error) tr1 :
  c args (Flags cmd) tr = (r, tr1) ->
  (r = None -> runCommand c cmd args tr = (0, tr1)) /\
  (r = Some (Foreign ErrInvalidCommandUsage) ->
     runCommand c cmd args tr = (1, tr1 ++ [EvUsage])) /\
  (forall err,
     r = Some err -> err <> Foreign ErrInvalidCommandUsage ->
     runCommand c cmd args tr = (1, tr1 ++ [EvPrintlnErr err])).
Proof.
  intros Hc. unfold runCommand, handleError, bind, emit, ret. rewrite Hc.
  split; [| split].
  - intros ->. reflexivity.
  - intros ->. reflexivity.
  - intros err -> Hne.
    destruct (error_eqb err (Foreign ErrInvalidCommandUsage)) eqn:E; [| reflexivity].
    apply error_eqb_eq in E. contradiction.
Qed.

Lemma runCommand_exit_witness :
  runCommand Sample.cmd_ok Sample.no_flags [] [] = (0, []) /\
  runCommand Sample.cmd_usage Sample.no_flags [] [] = (1, [EvUsage]) /\
  runCommand Sample.cmd_fail Sample.no_flags [] []
    = (1, [EvPrintlnErr (New already_initialized_msg)]).
Proof.
  split; [| split].
  - apply (runCommand_exit Sample.cmd_ok Sample.no_flags [] [] None [] eq_refl).
    reflexivity.
  - apply (runCommand_exit Sample.cmd_usage Sample.no_flags [] []
             (Some (Foreign ErrInvalidCommandUsage)) [] eq_refl).
    reflexivity.
  - apply (proj2 (proj2 (runCommand_exit Sample.cmd_fail Sample.no_flags [] []
                             (Some (New already_initialized_msg)) [] eq_refl))
             (New already_initialized_msg)); [reflexivity | discriminate].
Defined.

(** C10.  [runMovedCommand] is [runCommand] run after one more line of
    output: it prints the note, which names the new location [nl], and
    from there on does what [runCommand] does on the same command, with
    the same exit code and the same handling of the error.  For a command
    that behaves the same whether or not the note was printed, the two
    exit with the same code after the same output, the note apart. *)
Theorem runMovedCommand_as_runCommand env (c : CommandFunc) (cmd : Command)
    (args : list string) (nl : string) tr :
  let note := EvPrintRed (moved_note env nl) in
  runMovedCommand env c cmd args nl tr = runCommand c cmd args (tr ++ [note]) /\
  moved_note env nl =
    ("NOTE: This command has moved to " ++ strconv_Quote env nl
       ++ " and will be removed soon." ++ String "010" (String "010" ""))%string /\
  (let (r, tr1) := c args (Flags cmd) (tr ++ [note]) in
   runMovedCommand env c cmd args nl tr =
     match r with
     | None => (0, tr1)
     | Some err =>
         if error_eqb err (Foreign ErrInvalidCommandUsage)
         then (1, tr1 ++ [EvUsage])
         else (1, tr1 ++ [EvPrintlnErr err])
     end) /\
  (forall r evs,
      c args (Flags cmd) tr = (r, tr ++ evs) ->
      c args (Flags cmd) (tr ++ [note]) = (r, (tr ++ [note]) ++ evs) ->
      exists code out,
        runCommand c cmd args tr = (code, tr ++ evs ++ out) /\
        runMovedCommand env c cmd args nl tr = (code, tr ++ [note] ++ evs ++ out)).
Proof.
  cbv zeta. split; [reflexivity | split; [reflexivity | split]].
  - unfold runMovedCommand, runCommand, handleError, bind, emit, ret.
    destruct (c args (Flags cmd) (tr ++ [EvPrintRed (moved_note env nl)]))
      as [[err |] tr1]; [| reflexivity].
    destruct (error_eqb err (Foreign ErrInvalidCommandUsage)); reflexivity.
  - intros r evs Hplain Hnoted.
    unfold runMovedCommand, runCommand, handleError, bind, emit, ret.
    rewrite Hplain, Hnoted.
    destruct r as [err |].
    + destruct (error_eqb err (Foreign ErrInvalidCommandUsage));
        eexists 1, [_]; split; f_equal; trace_eq.
    + exists 0, []. split; f_equal; rewrite ?app_nil_r; trace_eq.
Qed.

Lemma runMovedCommand_as_runCommand_witness :
  let env := Sample.wrong_password Sample.stored in
  runCommand Sample.cmd_usage Sample.no_flags [] [] = (1, [EvUsage]) /\
  runMovedCommand env Sample.cmd_usage Sample.no_flags [] "pick safe" []
    = (1, [EvPrintRed (moved_note env "pick safe"); EvUsage]).
Proof.
  cbv zeta.
  destruct (runMovedCommand_as_runCommand (Sample.wrong_password Sample.stored)
              Sample.cmd_usage Sample.no_flags [] "pick safe" [])
    as (_ & _ & _ & Hsame).
  destruct (Hsame (Some (Foreign ErrInvalidCommandUsage)) [] eq_refl eq_refl)
    as (code & out & Hplain & Hmoved).
  rewrite Hmoved. vm_compute in Hplain. injection Hplain as <- <-.
  split; reflexivity.
Defined.

(** ** Which errors are retried *)

(** A pass that ends in a failed [safe.Load] goes by the budget alone. *)
Lemma attempt_load_failed env bc sl tr o evs pw e :
  attempt env sl bc tr = (o, tr ++ evs) ->
  last evs EvUsage = EvSafeLoad pw (Some e) ->
  o = if maxLoadTries sl >? loadTries sl
      then Again (retried sl)
      else Done (set_password sl (Some pw)) (Err (Foreign e)).
Proof.
  run_body attempt; intros Heq Hlast;
    injection Heq as <- Hevs;
    repeat rewrite <- app_assoc in Hevs;
    apply app_inv_head in Hevs; subst evs;
    cbn in Hlast; try discriminate Hlast;
    injection Hlast as <- <-;
    try reflexivity;
    destruct sl; cbn in *; subst; reflexivity.
Qed.

(** C2, as the code has it.  Whenever a pass through the body of
    [LoadWithBackendClient] ends in a [safe.Load] that returned an error,
    whichever error that is, the budget alone decides what follows.
    While [maxLoadTries > loadTries] the password is dropped, [loadTries]
    goes up by one and the method runs again, prompting anew.  Once the
    budget is used up the error of [safe.Load] is returned unchanged,
    [loadTries] stays as it is and nobody is prompted again. *)
Theorem any_load_error_is_retried env bc sl tr (fuel : nat) o evs pw e :
  attempt env sl bc tr = (o, tr ++ evs) ->
  last evs EvUsage = EvSafeLoad pw (Some e) ->
  (maxLoadTries sl > loadTries sl ->
     LoadWithBackendClient_fuel env (S fuel) sl bc tr =
       LoadWithBackendClient_fuel env fuel (retried sl) bc (tr ++ evs)) /\
  (maxLoadTries sl <= loadTries sl ->
     LoadWithBackendClient_fuel env (S fuel) sl bc tr =
       (Some (set_password sl (Some pw), Err (Foreign e)), tr ++ evs)).
Proof.
  intros Hatt Hlast.
  pose proof (attempt_load_failed env bc sl tr o evs pw e Hatt Hlast) as Ho.
  rewrite LoadWithBackendClient_fuel_unfold. unfold bind. rewrite Hatt.
  split; intros Hcmp.
  - assert (E : (maxLoadTries sl >? loadTries sl) = true) by lia.
    rewrite E in Ho. subst o. reflexivity.
  - assert (E : (maxLoadTries sl >? loadTries sl) = false) by lia.
    rewrite E in Ho. subst o. reflexivity.
Qed.

Lemma any_load_error_is_retried_witness :
  let env := Sample.unreadable Sample.stored in
  let sl := RememberPassword (newSafeLoader false) in
  let evs :=
    [EvSetWritable false None; EvSafeLocation;
     EvGetPasswordInput (unlock_prompt "pick.safe") None; EvCryptoNew None;
     EvSafeLoad Sample.pw_good (Some (ErrOther "unexpected end of file"))] in
  (attempt env sl Sample.stored [] = (Again (retried sl), [] ++ evs) /\
   last evs EvUsage = EvSafeLoad Sample.pw_good (Some (ErrOther "unexpected end of file")) /\
   maxLoadTries sl > loadTries sl) /\
  LoadWithBackendClient_fuel env 2 sl Sample.stored [] =
    LoadWithBackendClient_fuel env 1 (retried sl) Sample.stored ([] ++ evs).
Proof.
  cbv zeta. split; [by_computation |].
  apply (any_load_error_is_retried (Sample.unreadable Sample.stored) Sample.stored
           (RememberPassword (newSafeLoader false)) [] 1
           (Again (retried (RememberPassword (newSafeLoader false)))) _
           Sample.pw_good (ErrOther "unexpected end of file")).
  - vm_compute. reflexivity.
  - reflexivity.
  - by_computation.
Defined.

(** C2, a run that goes against the sentence of the specification.
    [safe.Load] fails with an error that is not [ErrAuthenticationFailed];
    the budget is one.  The loader does not return that error at once: it
    consumes the retry ([loadTries] goes from 0 to 1) and prompts a second
    time. *)
Lemma other_load_error_is_retried :
  let env := Sample.unreadable Sample.stored in
  let eof := ErrOther "unexpected end of file" in
  let pass :=
    [EvSetWritable false None; EvSafeLocation;
     EvGetPasswordInput (unlock_prompt "pick.safe") None; EvCryptoNew None;
     EvSafeLoad Sample.pw_good (Some eof)] in
  foreign_error_eqb eof ErrAuthenticationFailed = false /\
  loadTries (RememberPassword (newSafeLoader false)) = 0 /\
  LoadWithBackendClient env (RememberPassword (newSafeLoader false)) Sample.stored []
    = (Some ({| writable := false; password := Some Sample.pw_good;
                maxLoadTries := 1; loadTries := 1 |},
             Err (Foreign eof)),
       pass ++ pass) /\
  count is_prompt (pass ++ pass) = 2%nat.
Proof.
  cbv zeta. repeat split; vm_compute; reflexivity.
Qed.

(** ** What becomes of the errors of the collaborators *)

Lemma passed_over_SetWritable (w : bool) (e : foreign_error) :
  passed_over (EvSetWritable w (Some e)) = true <-> e <> ErrAlreadyRunning.
Proof.
  cbn. split.
  - intros H ->. discriminate H.
  - intros H. destruct e; try reflexivity. contradiction.
Qed.

Lemma each_failure_at (P : event -> foreign_error -> trace -> Prop) :
  forall pre evs ev post e,
    each_failure P evs -> evs = pre ++ ev :: post -> failure ev = Some e ->
    P ev e post.
Proof.
  induction pre as [|x pre IH]; intros evs ev post e Hall Heq Hfail; subst evs.
  - destruct Hall as [Hev _]. apply Hev. exact Hfail.
  - destruct Hall as [_ Hrest]. apply (IH _ ev post e Hrest eq_refl Hfail).
Qed.

(** Calls that go on can be put in front of a run that is not empty. *)
Lemma each_failure_after_goes_on (r : result error Safe) :
  forall front rest,
    forallb goes_on front = true -> rest <> [] ->
    each_failure (loader_policy r) rest ->
    each_failure (loader_policy r) (front ++ rest).
Proof.
  induction front as [|ev front IH]; intros rest Hfront Hne Hrest; [exact Hrest |].
  cbn [forallb] in Hfront. apply andb_true_iff in Hfront as [Hev Hfront].
  cbn [app each_failure]. split; [| apply IH; assumption].
  intros e Hfail.
  destruct ev as [? | ? | w ? | | ? ? | ? | ? ? | ? | ? | ? | | ?];
    cbn in Hfail, Hev; subst; try discriminate.
  cbn [loader_policy]. split.
  - intros ->. discriminate Hev.
  - intros _. destruct front; discriminate || (destruct rest; [contradiction | discriminate]).
Qed.

Ltac settle_policy :=
  cbn [each_failure failure app];
  repeat match goal with
         | |- _ /\ _ => split
         | |- True => exact I
         | |- forall e, _ = Some e -> _ =>
             let e' := fresh "e" in
             let H := fresh "H" in
             intros e' H; try discriminate H; injection H as <-;
             cbn [loader_policy init_policy]
         end;
  try reflexivity;
  try (intros; discriminate);
  try (intros Hne; exfalso; apply Hne; reflexivity);
  try (left; split; reflexivity);
  try (do 2 eexists; reflexivity).

(** One pass, read for its errors. *)
Lemma attempt_policy env sl bc tr :
  exists o a rest,
    attempt env sl bc tr = (o, tr ++ EvSetWritable (writable sl) a :: rest) /\
    match o with
    | Done sl' r =>
        each_failure (loader_policy r) (EvSetWritable (writable sl) a :: rest) /\
        (forall s, r = Ok s -> exists pw, last rest EvUsage = EvSafeLoad pw None)
    | Again sl' =>
        exists front pw e,
          EvSetWritable (writable sl) a :: rest = front ++ [EvSafeLoad pw (Some e)] /\
          forallb goes_on front = true
    end.
Proof.
  run_body attempt;
    do 3 eexists; (split; [f_equal; trace_eq |]);
    try (split; [settle_policy
                | intros s' Hs'; try discriminate Hs'; eexists; reflexivity]);
    try (eexists (_ :: _ :: _ :: _ :: _), _, _; split; reflexivity);
    try (eexists (_ :: _ :: _), _, _; split; reflexivity).
Qed.

Lemma LoadWithBackendClient_fuel_policy env bc :
  forall fuel sl tr,
    wf_loader sl -> (LoadWithBackendClient_depth sl <= fuel)%nat ->
    exists sl' r a rest,
      LoadWithBackendClient_fuel env fuel sl bc tr
        = (Some (sl', r), tr ++ EvSetWritable (writable sl) a :: rest) /\
      each_failure (loader_policy r) (EvSetWritable (writable sl) a :: rest).
Proof.
  induction fuel as [|fuel IH]; intros sl tr Hwf Hfuel.
  - unfold LoadWithBackendClient_depth in Hfuel. lia.
  - rewrite LoadWithBackendClient_fuel_unfold. unfold bind.
    destruct (attempt_policy env sl bc tr) as (o & a & rest & Hatt & Ho).
    pose proof (attempt_cases env sl bc tr) as (o' & evs' & Hatt' & _ & _ & Ho').
    rewrite Hatt in Hatt'. injection Hatt' as <- _. rewrite Hatt.
    destruct o as [sl' r | sl']; cbn [resume].
    + exists sl', r, a, rest. split; [reflexivity | apply Ho].
    + destruct Ho as (front & pw & e & Hevs & Hfront).
      destruct Ho' as (Hgt & -> & _).
      pose proof (retried_depth sl Hwf Hgt) as Hd.
      destruct (IH (retried sl) (tr ++ EvSetWritable (writable sl) a :: rest)
                  (retried_wf sl Hwf) ltac:(lia))
        as (sl' & r & a2 & rest2 & -> & Hpol).
      exists sl', r, a, (rest ++ EvSetWritable (writable (retried sl)) a2 :: rest2).
      split; [rewrite <- app_assoc; reflexivity |].
      change (EvSetWritable (writable sl) a
                :: rest ++ EvSetWritable (writable (retried sl)) a2 :: rest2)
        with ((EvSetWritable (writable sl) a :: rest)
                ++ EvSetWritable (writable (retried sl)) a2 :: rest2).
      rewrite Hevs, <- app_assoc.
      apply each_failure_after_goes_on; [exact Hfront | discriminate |].
      cbn [app each_failure failure]. split; [| exact Hpol].
      intros e' He'. injection He' as <-. cbn [loader_policy].
      right. eexists _, _, _. reflexivity.
Qed.

(** What a run of [LoadWithBackendClient] does with every error. *)
Lemma LoadWithBackendClient_policy env bc sl tr :
  wf_loader sl ->
  exists sl' r evs,
    LoadWithBackendClient env sl bc tr = (Some (sl', r), tr ++ evs) /\
    each_failure (loader_policy r) evs /\
    (forall x, r = Err x ->
       exists e, x = Foreign e /\ failure (last evs EvUsage) = Some e).
Proof.
  intros Hwf.
  destruct (LoadWithBackendClient_fuel_policy env bc (LoadWithBackendClient_depth sl)
              sl tr Hwf (Nat.le_refl _)) as (sl' & r & a & rest & Hrun & Hpol).
  destruct (LoadWithBackendClient_run env bc sl tr Hwf) as (sl2 & r2 & evs2 & Hrun2 & F).
  unfold LoadWithBackendClient in *. rewrite Hrun in Hrun2.
  injection Hrun2 as <- <- Hevs. apply app_inv_head in Hevs. subst evs2.
  eexists _, _, _. split; [exact Hrun |]. split; [exact Hpol |].
  intros x ->. destruct (run_errors _ _ _ _ F) as (e & He & Hlast & _).
  exists e. split; assumption.
Qed.

Lemma Load_policy env sl tr :
  wf_loader sl ->
  exists sl' r evs,
    Load env sl tr = (Some (sl', r), tr ++ evs) /\
    each_failure (loader_policy r) evs /\
    (forall x, r = Err x ->
       x = New not_initialized_msg \/
       exists e, x = Foreign e /\ failure (last evs EvUsage) = Some e).
Proof.
  intros Hwf.
  destruct (Load_cases env sl tr Hwf)
    as [(e & _ & Hrun) | [(bc & e & _ & _ & Hrun)
       | (bc & data & sl' & r & evs & _ & _ & Hrun & Hinner & _)]].
  - eexists _, _, _. split; [exact Hrun |]. split; [settle_policy |].
    intros x Hx. injection Hx as <-. right. exists e. split; reflexivity.
  - eexists _, _, _. split; [exact Hrun |]. split; [settle_policy |].
    intros x Hx. injection Hx as <-. left. reflexivity.
  - destruct (LoadWithBackendClient_policy env bc sl
                (tr ++ [EvBackendsNew None; EvBackendLoad None]) Hwf)
      as (sl2 & r2 & evs2 & Hrun2 & Hpol & Hres).
    rewrite Hrun2 in Hinner. injection Hinner as -> -> Hevs.
    apply app_inv_head in Hevs. subst evs2.
    eexists _, _, _. split; [exact Hrun |]. split.
    + cbn [app each_failure failure]. repeat split; try discriminate. exact Hpol.
    + intros x Hx. right. destruct (Hres x Hx) as (e & He & Hlast).
      exists e. split; [exact He |].
      destruct evs as [|ev evs]; [discriminate Hlast |].
      rewrite last_app_cons. exact Hlast.
Qed.

Lemma initSafe_policy env tr :
  exists r evs,
    initSafe env tr = (r, tr ++ evs) /\
    each_failure (init_policy r) evs /\
    (forall x, r = Some x ->
       x = New already_initialized_msg \/ x = New mismatch_msg \/
       exists e, x = Foreign e /\ failure (last evs EvUsage) = Some e).
Proof.
  run_body initSafe;
    do 2 eexists; (split; [trace_eq |]);
    (split; [settle_policy |]);
    intros x Hx; try discriminate Hx; injection Hx as <-;
    try (left; reflexivity);
    try (right; left; reflexivity);
    try (right; right; eexists; split; reflexivity).
Qed.

(** C5, as the code has it.  In a run of [LoadWithBackendClient], of
    [Load] or of [initSafe], a call that returns an error ends the run
    and its error is what the run returns, unchanged, in all but three
    cases.  A failed [safe.Load] in the loader either ends the run and is
    returned, or is followed by a new pass.  An error of [SetWritable]
    other than [ErrAlreadyRunning] is dropped and the run goes on;
    [ErrAlreadyRunning] ends the run and is returned.  An error of
    [backendClient.Load] is not looked at: [Load] ends with "not yet
    initialized", [initSafe] goes on to ask for the lock.  The errors a
    run returns are those of its last call, or one of the three made by
    [builtinerrors.New] in this file. *)
Theorem errors_accounted_for env bc sl tr :
  wf_loader sl ->
  (exists sl' r evs,
      LoadWithBackendClient env sl bc tr = (Some (sl', r), tr ++ evs) /\
      (forall pre ev post e,
          evs = pre ++ ev :: post -> failure ev = Some e ->
          loader_policy r ev e post) /\
      (forall x, r = Err x ->
         exists e, x = Foreign e /\ failure (last evs EvUsage) = Some e)) /\
  (exists sl' r evs,
      Load env sl tr = (Some (sl', r), tr ++ evs) /\
      (forall pre ev post e,
          evs = pre ++ ev :: post -> failure ev = Some e ->
          loader_policy r ev e post) /\
      (forall x, r = Err x ->
         x = New not_initialized_msg \/
         exists e, x = Foreign e /\ failure (last evs EvUsage) = Some e)) /\
  (exists r evs,
      initSafe env tr = (r, tr ++ evs) /\
      (forall pre ev post e,
          evs = pre ++ ev :: post -> failure ev = Some e ->
          init_policy r ev e post) /\
      (forall x, r = Some x ->
         x = New already_initialized_msg \/ x = New mismatch_msg \/
         exists e, x = Foreign e /\ failure (last evs EvUsage) = Some e)).
Proof.
  intros Hwf. split; [| split].
  - destruct (LoadWithBackendClient_policy env bc sl tr Hwf)
      as (sl' & r & evs & Hrun & Hpol & Hres).
    exists sl', r, evs. split; [exact Hrun |]. split; [| exact Hres].
    intros pre ev post e Heq Hfail.
    apply (each_failure_at _ pre evs ev post e Hpol Heq Hfail).
  - destruct (Load_policy env sl tr Hwf) as (sl' & r & evs & Hrun & Hpol & Hres).
    exists sl', r, evs. split; [exact Hrun |]. split; [| exact Hres].
    intros pre ev post e Heq Hfail.
    apply (each_failure_at _ pre evs ev post e Hpol Heq Hfail).
  - destruct (initSafe_policy env tr) as (r & evs & Hrun & Hpol & Hres).
    exists r, evs. split; [exact Hrun |]. split; [| exact Hres].
    intros pre ev post e Heq Hfail.
    apply (each_failure_at _ pre evs ev post e Hpol Heq Hfail).
Qed.

Lemma errors_accounted_for_witness :
  wf_loader (newSafeLoader true) /\
  exists sl' evs,
    LoadWithBackendClient (Sample.wrong_password Sample.stored) (newSafeLoader true)
      Sample.stored [] = (Some (sl', Err (Foreign ErrAuthenticationFailed)), evs) /\
    failure (last evs EvUsage) = Some ErrAuthenticationFailed.
Proof.
  assert (Hwf : wf_loader (newSafeLoader true)) by by_computation.
  split; [exact Hwf |].
  destruct (errors_accounted_for (Sample.wrong_password Sample.stored) Sample.stored
              (newSafeLoader true) [] Hwf)
    as ((sl' & r & evs & Hrun & _ & Hres) & _).
  exists sl', evs.
  assert (Hr : r = Err (Foreign ErrAuthenticationFailed)).
  { vm_compute in Hrun. injection Hrun as _ <- _. reflexivity. }
  subst r. destruct (Hres _ eq_refl) as (e & He & Hlast). injection He as <-.
  split; [exact Hrun | exact Hlast].
Defined.

(** C5, runs that go against the sentence of the specification: in each
    of them a call returns an error, the run goes on, and the error is in
    no result.  [SetWritable(true)] fails, not with [ErrAlreadyRunning]:
    [LoadWithBackendClient] returns the safe and [initSafe] reports
    success.  [backendClient.Load] fails, not with the NotInitialized
    condition: [initSafe] initialises and reports success.  [safe.Load]
    fails, not with [ErrAuthenticationFailed], and a retry is left: the
    loader asks again and returns the safe. *)
Lemma SetWritable_error_is_dropped :
  let lock_failed := EvSetWritable true (Some (ErrOther "read-only file system")) in
  let denied := ErrOther "permission denied" in
  let eof := ErrOther "unexpected end of file" in
  Client_SetWritable Sample.read_only [] true = Some (ErrOther "read-only file system") /\
  LoadWithBackendClient (Sample.cooperative Sample.read_only [Sample.pw_good])
    (newSafeLoader true) Sample.read_only []
    = (Some ({| writable := true; password := Some Sample.pw_good;
                maxLoadTries := 0; loadTries := 0 |},
             Ok Sample.the_safe),
       [lock_failed; EvSafeLocation;
        EvGetPasswordInput (unlock_prompt "pick.safe") None; EvCryptoNew None;
        EvSafeLoad Sample.pw_good None]) /\
  initSafe (Sample.cooperative Sample.empty_read_only [Sample.pw_good; Sample.pw_good]) []
    = (None,
       [EvBackendsNew None; EvBackendLoad (Some (ErrOther "safe not found"));
        lock_failed;
        EvGetPasswordInput (set_prompt false) None;
        EvGetPasswordInput (confirm_prompt false) None;
        EvCryptoNew None; EvSafeLoad Sample.pw_good None; EvSafeInit None;
        EvPrintln "pick initialized"]) /\
  foreign_error_eqb denied ErrNotInitialized = false /\
  initSafe (Sample.cooperative Sample.unreadable_store [Sample.pw_good; Sample.pw_good]) []
    = (None,
       [EvBackendsNew None; EvBackendLoad (Some denied);
        EvSetWritable true None;
        EvGetPasswordInput (set_prompt false) None;
        EvGetPasswordInput (confirm_prompt false) None;
        EvCryptoNew None; EvSafeLoad Sample.pw_good None; EvSafeInit None;
        EvPrintln "pick initialized"]) /\
  foreign_error_eqb eof ErrAuthenticationFailed = false /\
  LoadWithBackendClient (Sample.flaky Sample.stored)
    (RememberPassword (newSafeLoader false)) Sample.stored []
    = (Some ({| writable := false; password := Some Sample.pw_good;
                maxLoadTries := 1; loadTries := 1 |},
             Ok Sample.the_safe),
       [EvSetWritable false None; EvSafeLocation;
        EvGetPasswordInput (unlock_prompt "pick.safe") None; EvCryptoNew None;
        EvSafeLoad Sample.pw_good (Some eof);
        EvSetWritable false None; EvSafeLocation;
        EvGetPasswordInput (unlock_prompt "pick.safe") None; EvCryptoNew None;
        EvSafeLoad Sample.pw_good None]).
Proof.
  cbv zeta. repeat split; vm_compute; reflexivity.
Qed.

(** * Further properties of the loader and of the initialisation *)

Lemma bytes_Equal_refl (a : bytes) : bytes_Equal a a = true.
Proof. apply bytes_Equal_eq. reflexivity. Qed.

(** One pass, read for its calls: one [SetWritable], made with the
    loader's flag; no prompt when a password is cached; a pass that
    returns the safe leaves the password that opened it in the loader. *)
Lemma attempt_shape env sl bc tr :
  exists o evs,
    attempt env sl bc tr = (o, tr ++ evs) /\
    count is_set_writable evs = 1%nat /\
    forallb (asks_lock_as (writable sl)) evs = true /\
    (count is_prompt evs <= 1)%nat /\
    (count is_safe_load evs <= 1)%nat /\
    (forall pw, password sl = Some pw -> count is_prompt evs = 0%nat) /\
    match o with
    | Done sl' r =>
        loadTries sl' = loadTries sl /\ maxLoadTries sl' = maxLoadTries sl /\
        (forall s, r = Ok s ->
           exists pw, password sl' = Some pw /\
                      last evs EvUsage = EvSafeLoad pw None)
    | Again sl' => maxLoadTries sl > loadTries sl /\ sl' = retried sl
    end.
Proof.
  run_body attempt;
    do 2 eexists; (split; [trace_eq |]);
    repeat rewrite count_app; repeat rewrite count_one;
    cbn [is_set_writable is_prompt is_safe_load forallb app asks_lock_as andb
         Nat.add loadTries maxLoadTries password set_password];
    rewrite ?Bool.eqb_reflx;
    repeat match goal with |- _ /\ _ => split end;
    try reflexivity; try lia;
    try (intros pw' Hpw'; congruence);
    try (intros s' Hs'; discriminate Hs');
    try (intros s' Hs'; eexists; split; [eassumption || reflexivity | reflexivity]);
    try (cbn in *; lia).
Qed.

Lemma LoadWithBackendClient_fuel_shape env bc :
  forall fuel sl tr,
    wf_loader sl -> (LoadWithBackendClient_depth sl <= fuel)%nat ->
    exists sl' r evs,
      LoadWithBackendClient_fuel env fuel sl bc tr = (Some (sl', r), tr ++ evs) /\
      run_shape sl sl' r evs.
Proof.
  induction fuel as [|fuel IH]; intros sl tr Hwf Hfuel.
  - unfold LoadWithBackendClient_depth in Hfuel. lia.
  - rewrite LoadWithBackendClient_fuel_unfold. unfold bind.
    destruct (attempt_shape env sl bc tr)
      as (o & evs & -> & Hw & Hlock & Hp & Hl & Hcached & Ho).
    destruct o as [sl' r | sl']; cbn [resume].
    + destruct Ho as (Ht & Hm & Hok).
      exists sl', r, evs. split; [reflexivity |].
      constructor; try assumption; try lia.
      intros pw Hpw. rewrite (Hcached pw Hpw), Hw. lia.
    + destruct Ho as (Hgt & ->).
      pose proof (retried_depth sl Hwf Hgt) as Hd.
      pose proof (retried_loadTries sl Hwf Hgt) as Hstep.
      destruct (IH (retried sl) (tr ++ evs) (retried_wf sl Hwf) ltac:(lia))
        as (sl' & r & evs' & -> & F).
      exists sl', r, (evs ++ evs'). split; [rewrite app_assoc; reflexivity |].
      destruct F. cbn [maxLoadTries writable retried] in *.
      constructor; try rewrite !count_app; try assumption; try lia.
      * rewrite forallb_app, Hlock. assumption.
      * intros pw Hpw. rewrite (Hcached pw Hpw), Hw. lia.
      * intros s Hs. destruct (shape_success0 s Hs) as (pw & Hpw & Hlast).
        exists pw. split; [exact Hpw |].
        destruct evs' as [|ev evs']; [discriminate Hlast |].
        rewrite last_app_cons. exact Hlast.
Qed.

Lemma LoadWithBackendClient_shape env bc sl tr :
  wf_loader sl ->
  exists sl' r evs,
    LoadWithBackendClient env sl bc tr = (Some (sl', r), tr ++ evs) /\
    run_shape sl sl' r evs.
Proof.
  intros Hwf. apply LoadWithBackendClient_fuel_shape; [exact Hwf | lia].
Qed.

(** [Load], read for its calls like [LoadWithBackendClient]. *)
Lemma Load_shape env sl tr :
  wf_loader sl ->
  exists sl' r evs,
    Load env sl tr = (Some (sl', r), tr ++ evs) /\
    forallb (asks_lock_as (writable sl)) evs = true /\
    (forall s, r = Ok s ->
       exists pw, password sl' = Some pw /\ last evs EvUsage = EvSafeLoad pw None).
Proof.
  intros Hwf.
  destruct (Load_cases env sl tr Hwf)
    as [(e & _ & Hrun) | [(bc & e & _ & _ & Hrun)
       | (bc & data & sl' & r & evs & _ & _ & Hrun & Hinner & _)]].
  - eexists _, _, _. split; [exact Hrun |]. split; [reflexivity | discriminate].
  - eexists _, _, _. split; [exact Hrun |]. split; [reflexivity | discriminate].
  - destruct (LoadWithBackendClient_shape env bc sl
                (tr ++ [EvBackendsNew None; EvBackendLoad None]) Hwf)
      as (sl2 & r2 & evs2 & Hrun2 & F).
    rewrite Hrun2 in Hinner. injection Hinner as -> -> Hevs.
    apply app_inv_head in Hevs. subst evs2.
    eexists _, _, _. split; [exact Hrun |]. destruct F. split.
    + cbn [app forallb asks_lock_as andb]. assumption.
    + intros s Hs. destruct (shape_success0 s Hs) as (pw & Hpw & Hlast).
      exists pw. split; [exact Hpw |].
      destruct evs as [|ev evs]; [discriminate Hlast |].
      rewrite last_app_cons. exact Hlast.
Qed.

Lemma asks_lock_as_false (evs : trace) :
  forallb (asks_lock_as false) evs = true -> count takes_lock evs = 0%nat.
Proof.
  induction evs as [|ev evs IH]; [reflexivity |].
  cbn [forallb]. intros H. apply andb_true_iff in H as [Hev Hrest].
  unfold count in *. cbn [filter].
  destruct ev as [| | [|] ? | | | | | | | | |]; cbn in *;
    try discriminate Hev; apply IH; exact Hrest.
Qed.

(** X1.  A run of [LoadWithBackendClient] is a sequence of passes, each
    of which calls [SetWritable] exactly once, prompts at most once and
    calls [safe.Load] at most once.  The number of passes is the number
    of retries the run consumed plus one, and the run leaves the budget
    [maxLoadTries] as it found it. *)
Theorem passes_are_retries_plus_one env bc sl tr :
  wf_loader sl ->
  exists sl' r evs,
    LoadWithBackendClient env sl bc tr = (Some (sl', r), tr ++ evs) /\
    Z.of_nat (count is_set_writable evs) = loadTries sl' - loadTries sl + 1 /\
    (count is_prompt evs <= count is_set_writable evs)%nat /\
    (count is_safe_load evs <= count is_set_writable evs)%nat /\
    maxLoadTries sl' = maxLoadTries sl.
Proof.
  intros Hwf.
  destruct (LoadWithBackendClient_shape env bc sl tr Hwf) as (sl' & r & evs & Hrun & F).
  exists sl', r, evs. destruct F. repeat split; assumption.
Qed.

Lemma passes_are_retries_plus_one_witness :
  let sl := RememberPassword (RememberPassword (newSafeLoader false)) in
  wf_loader sl /\
  exists sl' r evs,
    LoadWithBackendClient (Sample.impatient Sample.stored) sl Sample.stored []
      = (Some (sl', r), evs) /\
    loadTries sl' = 1 /\ count is_set_writable evs = 2%nat.
Proof.
  cbv zeta.
  assert (Hwf : wf_loader (RememberPassword (RememberPassword (newSafeLoader false))))
    by by_computation.
  split; [exact Hwf |].
  destruct (passes_are_retries_plus_one (Sample.impatient Sample.stored) Sample.stored
              _ [] Hwf) as (sl' & r & evs & Hrun & Hpasses & _).
  exists sl', r, evs. split; [exact Hrun |].
  vm_compute in Hrun. injection Hrun as <- _ <-. split; reflexivity.
Defined.

(** X2.  Every [SetWritable] call that [Load] or [LoadWithBackendClient]
    makes passes the loader's [writable] flag.  A loader made with
    [writable = false] therefore never asks for the write lock. *)
Theorem lock_is_asked_as_configured env bc sl tr :
  wf_loader sl ->
  (exists sl' r evs,
      LoadWithBackendClient env sl bc tr = (Some (sl', r), tr ++ evs) /\
      forallb (asks_lock_as (writable sl)) evs = true /\
      (writable sl = false -> count takes_lock evs = 0%nat)) /\
  (exists sl' r evs,
      Load env sl tr = (Some (sl', r), tr ++ evs) /\
      forallb (asks_lock_as (writable sl)) evs = true /\
      (writable sl = false -> count takes_lock evs = 0%nat)).
Proof.
  intros Hwf. split.
  - destruct (LoadWithBackendClient_shape env bc sl tr Hwf)
      as (sl' & r & evs & Hrun & F).
    exists sl', r, evs. destruct F. split; [exact Hrun |]. split; [assumption |].
    intros Hro. apply asks_lock_as_false. rewrite <- Hro. assumption.
  - destruct (Load_shape env sl tr Hwf) as (sl' & r & evs & Hrun & Hlock & _).
    exists sl', r, evs. split; [exact Hrun |]. split; [assumption |].
    intros Hro. apply asks_lock_as_false. rewrite <- Hro. assumption.
Qed.

Lemma lock_is_asked_as_configured_witness :
  wf_loader (newSafeLoader false) /\
  exists sl' r evs,
    Load (Sample.cooperative Sample.locked [Sample.pw_good]) (newSafeLoader false) []
      = (Some (sl', r), evs) /\
    count takes_lock evs = 0%nat.
Proof.
  assert (Hwf : wf_loader (newSafeLoader false)) by by_computation.
  split; [exact Hwf |].
  destruct (lock_is_asked_as_configured
              (Sample.cooperative Sample.locked [Sample.pw_good]) Sample.locked
              (newSafeLoader false) [] Hwf)
    as (_ & sl' & r & evs & Hrun & _ & Hnone).
  exists sl', r, evs. split; [exact Hrun | exact (Hnone eq_refl)].
Defined.

(** X3.  When [LoadWithBackendClient] or [Load] returns a safe, the
    loader holds a password, and the last call of the run was
    [safe.Load] with that very password, returning no error: the cached
    password is the one that opened the safe. *)
Theorem success_caches_the_password env bc sl tr :
  wf_loader sl ->
  (exists sl' r evs,
      LoadWithBackendClient env sl bc tr = (Some (sl', r), tr ++ evs) /\
      (forall s, r = Ok s ->
         exists pw, password sl' = Some pw /\
                    last evs EvUsage = EvSafeLoad pw None)) /\
  (exists sl' r evs,
      Load env sl tr = (Some (sl', r), tr ++ evs) /\
      (forall s, r = Ok s ->
         exists pw, password sl' = Some pw /\
                    last evs EvUsage = EvSafeLoad pw None)).
Proof.
  intros Hwf. split.
  - destruct (LoadWithBackendClient_shape env bc sl tr Hwf)
      as (sl' & r & evs & Hrun & F).
    exists sl', r, evs. destruct F. split; assumption.
  - destruct (Load_shape env sl tr Hwf) as (sl' & r & evs & Hrun & _ & Hok).
    exists sl', r, evs. split; assumption.
Qed.

Lemma success_caches_the_password_witness :
  wf_loader (newSafeLoader true) /\
  exists sl' evs,
    Load (Sample.cooperative Sample.stored [Sample.pw_good]) (newSafeLoader true) []
      = (Some (sl', Ok Sample.the_safe), evs) /\
    password sl' = Some Sample.pw_good.
Proof.
  assert (Hwf : wf_loader (newSafeLoader true)) by by_computation.
  split; [exact Hwf |].
  destruct (success_caches_the_password
              (Sample.cooperative Sample.stored [Sample.pw_good]) Sample.stored
              (newSafeLoader true) [] Hwf)
    as (_ & sl' & r & evs & Hrun & Hok).
  assert (Hr : r = Ok Sample.the_safe).
  { vm_compute in Hrun. injection Hrun as _ <- _. reflexivity. }
  subst r. destruct (Hok _ eq_refl) as (pw & Hpw & Hlast).
  exists sl', evs. split; [exact Hrun |].
  vm_compute in Hrun. injection Hrun as <- _. reflexivity.
Defined.

(** One pass of a loader that holds a password. *)
Lemma attempt_cached env sl bc tr pw :
  password sl = Some pw ->
  exists o evs,
    attempt env sl bc tr = (o, tr ++ evs) /\
    count is_prompt evs = 0%nat /\
    count is_set_writable evs = 1%nat /\
    (count is_safe_load evs <= 1)%nat /\
    forallb (loads_with pw) evs = true /\
    match o with
    | Done sl' r => sl' = sl
    | Again sl' => maxLoadTries sl > loadTries sl
    end.
Proof.
  intros Hpw. unfold attempt. rewrite Hpw.
  run_body attempt;
    do 2 eexists; (split; [trace_eq |]);
    repeat rewrite count_app; repeat rewrite count_one;
    cbn [is_set_writable is_prompt is_safe_load forallb app loads_with andb Nat.add];
    rewrite ?bytes_Equal_refl;
    repeat match goal with |- _ /\ _ => split end;
    try reflexivity; try lia.
Qed.

(** X4.  A loader that holds a password and has no retry left makes a
    single pass: it does not prompt, it calls [safe.Load] at most once
    and only with the password it holds, it returns what that pass gives
    and it is left as it was. *)
Theorem exhausted_loader_does_not_prompt env bc sl tr pw :
  password sl = Some pw -> maxLoadTries sl <= loadTries sl ->
  exists r evs,
    LoadWithBackendClient env sl bc tr = (Some (sl, r), tr ++ evs) /\
    count is_prompt evs = 0%nat /\
    count is_set_writable evs = 1%nat /\
    (count is_safe_load evs <= 1)%nat /\
    forallb (loads_with pw) evs = true.
Proof.
  intros Hpw Hspent.
  unfold LoadWithBackendClient, LoadWithBackendClient_depth.
  rewrite LoadWithBackendClient_fuel_unfold. unfold bind.
  destruct (attempt_cached env sl bc tr pw Hpw)
    as (o & evs & -> & Hp & Hw & Hl & Hwith & Ho).
  destruct o as [sl' r | sl']; [| lia].
  subst sl'. exists r, evs. cbn [resume]. unfold ret. repeat split; assumption.
Qed.

Lemma exhausted_loader_does_not_prompt_witness :
  let sl := {| writable := false; password := Some Sample.pw_bad;
               maxLoadTries := 1; loadTries := 1 |} in
  (password sl = Some Sample.pw_bad /\ maxLoadTries sl <= loadTries sl) /\
  LoadWithBackendClient (Sample.wrong_password Sample.stored) sl Sample.stored []
    = (Some (sl, Err (Foreign ErrAuthenticationFailed)),
       [EvSetWritable false None; EvCryptoNew None;
        EvSafeLoad Sample.pw_bad (Some ErrAuthenticationFailed)]).
Proof.
  cbv zeta. split; [split; [reflexivity | cbn; lia] |].
  destruct (exhausted_loader_does_not_prompt
              (Sample.wrong_password Sample.stored) Sample.stored
              {| writable := false; password := Some Sample.pw_bad;
                 maxLoadTries := 1; loadTries := 1 |} [] Sample.pw_bad
              eq_refl ltac:(cbn; lia))
    as (r & evs & Hrun & _).
  rewrite Hrun. vm_compute in Hrun. injection Hrun as <- <-. reflexivity.
Defined.

(** X6.  A loader that holds a password asks the user only after a
    failed load has consumed a retry: the number of prompts of a run is
    at most the number of retries the run consumed. *)
Theorem cached_password_prompts_only_on_retry env bc sl tr pw :
  wf_loader sl -> password sl = Some pw ->
  exists sl' r evs,
    LoadWithBackendClient env sl bc tr = (Some (sl', r), tr ++ evs) /\
    Z.of_nat (count is_prompt evs) <= loadTries sl' - loadTries sl.
Proof.
  intros Hwf Hpw.
  destruct (LoadWithBackendClient_shape env bc sl tr Hwf) as (sl' & r & evs & Hrun & F).
  exists sl', r, evs. split; [exact Hrun |].
  pose proof (shape_passes _ _ _ _ F) as Hpasses.
  pose proof (shape_cached _ _ _ _ F pw Hpw) as Hlt.
  lia.
Qed.

Lemma cached_password_prompts_only_on_retry_witness :
  let sl := {| writable := false; password := Some Sample.pw_bad;
               maxLoadTries := 3; loadTries := 1 |} in
  (wf_loader sl /\ password sl = Some Sample.pw_bad) /\
  exists sl' r evs,
    LoadWithBackendClient (Sample.wrong_password Sample.stored) sl Sample.stored []
      = (Some (sl', r), evs) /\
    Z.of_nat (count is_prompt evs) <= loadTries sl' - 1.
Proof.
  cbv zeta.
  assert (Hwf : wf_loader {| writable := false; password := Some Sample.pw_bad;
                             maxLoadTries := 3; loadTries := 1 |})
    by by_computation.
  split; [split; [exact Hwf | reflexivity] |].
  destruct (cached_password_prompts_only_on_retry
              (Sample.wrong_password Sample.stored) Sample.stored _ []
              Sample.pw_bad Hwf eq_refl)
    as (sl' & r & evs & Hrun & Hle).
  exists sl', r, evs. split; assumption.
Defined.

(** Where a run of failed loads leaves the loader: out of retries, and
    holding the password of the last attempt. *)
Lemma wrong_password_final env bc :
  lock_available bc -> prompt_answers env -> crypto_builds env ->
  load_always_fails env bc ->
  forall (k : nat) sl tr,
    wf_loader sl -> password sl = None ->
    maxLoadTries sl - loadTries sl = Z.of_nat k ->
    exists sl' pw e evs,
      LoadWithBackendClient_fuel env (S k) sl bc tr
        = (Some (sl', Err (Foreign e)), tr ++ evs) /\
      password sl' = Some pw /\
      writable sl' = writable sl /\
      maxLoadTries sl' = maxLoadTries sl /\
      loadTries sl' = maxLoadTries sl.
Proof.
  intros Hlock Hprompt Hcrypto Hload.
  induction k as [|k IH]; intros sl tr Hwf Hnone Hdist;
    rewrite LoadWithBackendClient_fuel_unfold; unfold bind;
    destruct (attempt_wrong_password env bc sl tr Hlock Hprompt Hcrypto Hload Hnone)
      as (pw & e & evs & Hagain & Hdone & _).
  - rewrite Hdone by lia. cbn [resume]. unfold ret.
    exists (set_password sl (Some pw)), pw, e, evs.
    repeat split. cbn. lia.
  - assert (Hgt : maxLoadTries sl > loadTries sl) by lia.
    rewrite (Hagain Hgt). cbn [resume].
    pose proof (retried_loadTries sl Hwf Hgt) as Hstep.
    destruct (IH (retried sl) (tr ++ evs) (retried_wf sl Hwf) eq_refl)
      as (sl' & pw' & e' & evs' & Hrun & Hpw & Hw & Hm & Ht).
    { rewrite Hstep. cbn [maxLoadTries retried]. lia. }
    exists sl', pw', e', (evs ++ evs').
    rewrite Hrun, app_assoc. repeat split; assumption.
Qed.

(** One pass of a loader that holds a password and has no retry left,
    when the lock is free and the load fails. *)
Lemma attempt_wrong_cached env bc sl tr pw :
  lock_available bc -> crypto_builds env -> load_always_fails env bc ->
  password sl = Some pw -> maxLoadTries sl <= loadTries sl ->
  exists a e,
    attempt env sl bc tr =
      (Done sl (Err (Foreign e)),
       tr ++ [EvSetWritable (writable sl) a; EvCryptoNew None;
              EvSafeLoad pw (Some e)]).
Proof.
  intros Hlock Hcrypto Hload Hpw Hspent. unfold attempt. rewrite Hpw.
  run_body attempt; try impossible_answer; try (exfalso; lia);
    do 2 eexists; f_equal; trace_eq.
Qed.

(** X5.  The budget belongs to the loader, not to the call.  After a
    run in which every load failed, the loader is out of retries and
    still holds the last password tried; a further call on it does not
    ask the user: it tries that same password once more and returns the
    error, leaving the loader as it is. *)
Theorem spent_budget_is_not_restored env bc sl tr :
  lock_available bc -> prompt_answers env -> crypto_builds env ->
  load_always_fails env bc ->
  wf_loader sl -> password sl = None -> loadTries sl <= maxLoadTries sl ->
  exists sl1 e1 evs1 pw a e2,
    LoadWithBackendClient env sl bc tr
      = (Some (sl1, Err (Foreign e1)), tr ++ evs1) /\
    password sl1 = Some pw /\
    loadTries sl1 = maxLoadTries sl1 /\
    LoadWithBackendClient env sl1 bc (tr ++ evs1)
      = (Some (sl1, Err (Foreign e2)),
         (tr ++ evs1) ++ [EvSetWritable (writable sl) a; EvCryptoNew None;
                          EvSafeLoad pw (Some e2)]).
Proof.
  intros Hlock Hprompt Hcrypto Hload Hwf Hnone Hinv.
  destruct (wrong_password_final env bc Hlock Hprompt Hcrypto Hload
              (Z.to_nat (maxLoadTries sl - loadTries sl)) sl tr Hwf Hnone)
    as (sl1 & pw & e1 & evs1 & Hrun & Hpw & Hw & Hm & Ht); [lia |].
  assert (Hspent : maxLoadTries sl1 <= loadTries sl1) by lia.
  destruct (attempt_wrong_cached env bc sl1 (tr ++ evs1) pw
              Hlock Hcrypto Hload Hpw Hspent) as (a & e2 & Hatt).
  exists sl1, e1, evs1, pw, a, e2.
  split; [exact Hrun |]. split; [exact Hpw |]. split; [lia |].
  unfold LoadWithBackendClient, LoadWithBackendClient_depth.
  rewrite LoadWithBackendClient_fuel_unfold. unfold bind.
  rewrite Hatt. cbn [resume]. unfold ret. rewrite Hw. reflexivity.
Qed.

Lemma spent_budget_is_not_restored_witness :
  let env := Sample.wrong_password Sample.stored in
  let sl := RememberPassword (newSafeLoader false) in
  (lock_available Sample.stored /\ prompt_answers env /\ crypto_builds env /\
   load_always_fails env Sample.stored /\
   wf_loader sl /\ password sl = None /\ loadTries sl <= maxLoadTries sl) /\
  exists sl1 evs1,
    fst (LoadWithBackendClient env sl Sample.stored []) = Some (sl1, Err (Foreign ErrAuthenticationFailed)) /\
    snd (LoadWithBackendClient env sl Sample.stored []) = evs1 /\
    LoadWithBackendClient env sl1 Sample.stored evs1
      = (Some (sl1, Err (Foreign ErrAuthenticationFailed)),
         evs1 ++ [EvSetWritable false None; EvCryptoNew None;
                  EvSafeLoad Sample.pw_bad (Some ErrAuthenticationFailed)]).
Proof.
  cbv zeta.
  assert (Hlock : lock_available Sample.stored) by (intros tr w; discriminate).
  assert (Hprompt : prompt_answers (Sample.wrong_password Sample.stored))
    by (intros tr msg; eexists; reflexivity).
  assert (Hcrypto : crypto_builds (Sample.wrong_password Sample.stored))
    by (intros tr; eexists; reflexivity).
  assert (Hload : load_always_fails (Sample.wrong_password Sample.stored) Sample.stored)
    by (intros tr pw c; eexists; reflexivity).
  assert (Hsl : wf_loader (RememberPassword (newSafeLoader false)) /\
                password (RememberPassword (newSafeLoader false)) = None /\
                loadTries (RememberPassword (newSafeLoader false))
                  <= maxLoadTries (RememberPassword (newSafeLoader false)))
    by by_computation.
  split; [repeat split; try assumption; apply Hsl |].
  destruct Hsl as (Hwf & Hnone & Hinv).
  destruct (spent_budget_is_not_restored (Sample.wrong_password Sample.stored)
              Sample.stored (RememberPassword (newSafeLoader false)) []
              Hlock Hprompt Hcrypto Hload Hwf Hnone Hinv)
    as (sl1 & e1 & evs1 & pw & a & e2 & Hrun & Hpw & _ & Hagain).
  exists sl1, evs1. rewrite Hrun. cbn [fst snd app] in *.
  vm_compute in Hrun. injection Hrun as <- <- <-.
  repeat split.
Defined.

Lemma passed_over_not_contended (ev : event) :
  passed_over ev = true -> lock_contended ev = false.
Proof.
  destruct ev as [| | w [[ | | | | m]|] | | | | | | | | |]; cbn;
    try reflexivity; discriminate.
Qed.

Lemma passed_over_all_not_contended (evs : trace) :
  forallb passed_over evs = true -> count lock_contended evs = 0%nat.
Proof.
  induction evs as [|ev evs IH]; [reflexivity |].
  cbn [forallb]. intros H. apply andb_true_iff in H as [Hev Hrest].
  unfold count in *. cbn [filter].
  rewrite (passed_over_not_contended ev Hev). apply IH. exact Hrest.
Qed.

Lemma passed_over_last (evs : trace) :
  forallb passed_over evs = true -> passed_over (last evs EvUsage) = true.
Proof.
  induction evs as [|ev evs IH]; [reflexivity |].
  cbn [forallb]. intros H. apply andb_true_iff in H as [Hev Hrest].
  destruct evs as [|ev' evs]; [exact Hev |].
  change (last (ev :: ev' :: evs) EvUsage) with (last (ev' :: evs) EvUsage).
  apply IH. exact Hrest.
Qed.

(** X7.  Lock contention is never retried, whatever the budget.  In a
    run of [LoadWithBackendClient] a [SetWritable] that returns
    [ErrAlreadyRunning] can only be the last call, and the run then
    returns [ErrAlreadyRunning].  When it is the first call, nothing else
    is called, nobody is prompted and the loader is left as it was. *)
Theorem lock_contention_ends_the_run env bc sl tr :
  wf_loader sl ->
  exists sl' r evs,
    LoadWithBackendClient env sl bc tr = (Some (sl', r), tr ++ evs) /\
    count lock_contended (removelast evs) = 0%nat /\
    (lock_contended (last evs EvUsage) = true ->
       r = Err (Foreign ErrAlreadyRunning)) /\
    (Client_SetWritable bc tr (writable sl) = Some ErrAlreadyRunning ->
       sl' = sl /\ r = Err (Foreign ErrAlreadyRunning) /\
       evs = [EvSetWritable (writable sl) (Some ErrAlreadyRunning)]).
Proof.
  intros Hwf.
  destruct (LoadWithBackendClient_run env bc sl tr Hwf) as (sl' & r & evs & Hrun & F).
  exists sl', r, evs. split; [exact Hrun |].
  pose proof (run_errors _ _ _ _ F) as Herr.
  split; [| split].
  - destruct r as [s | x].
    + destruct evs as [|ev evs] using rev_ind; [reflexivity |].
      rewrite removelast_last. rewrite forallb_app in Herr.
      apply andb_true_iff in Herr as [Hinit _].
      apply passed_over_all_not_contended. exact Hinit.
    + destruct Herr as (e & _ & _ & Hrest).
      apply passed_over_all_not_contended. exact Hrest.
  - intros Hlast. destruct r as [s | x].
    + apply passed_over_last in Herr.
      rewrite (passed_over_not_contended _ Herr) in Hlast. discriminate Hlast.
    + destruct Herr as (e & -> & Hfail & _).
      destruct (last evs EvUsage) as [| | w [[ | | | | m]|] | | | | | | | | |];
        cbn in Hlast, Hfail; try discriminate Hlast.
      injection Hfail as <-. reflexivity.
  - intros Hbusy.
    unfold LoadWithBackendClient, LoadWithBackendClient_depth in Hrun.
    cbn [LoadWithBackendClient_fuel] in Hrun.
    unfold bind, call, ret in Hrun. rewrite Hbusy in Hrun.
    injection Hrun as <- <- Hevs. apply app_inv_head in Hevs.
    repeat split. symmetry. exact Hevs.
Qed.

Lemma lock_contention_ends_the_run_witness :
  let sl := RememberPassword (newSafeLoader true) in
  (wf_loader sl /\
   Client_SetWritable Sample.locked [] (writable sl) = Some ErrAlreadyRunning) /\
  LoadWithBackendClient (Sample.cooperative Sample.locked [Sample.pw_good]) sl
    Sample.locked []
    = (Some (sl, Err (Foreign ErrAlreadyRunning)),
       [EvSetWritable true (Some ErrAlreadyRunning)]).
Proof.
  cbv zeta.
  assert (Hwf : wf_loader (RememberPassword (newSafeLoader true))) by by_computation.
  split; [split; [exact Hwf | reflexivity] |].
  destruct (lock_contention_ends_the_run
              (Sample.cooperative Sample.locked [Sample.pw_good]) Sample.locked
              (RememberPassword (newSafeLoader true)) [] Hwf)
    as (sl' & r & evs & Hrun & _ & _ & Hfirst).
  destruct (Hfirst eq_refl) as (-> & -> & ->).
  exact Hrun.
Defined.

(** ** [initSafe], read for its calls *)

(** Every way through [initSafe], read for what it calls and prints. *)
Lemma initSafe_calls env tr :
  exists r evs,
    initSafe env tr = (r, tr ++ evs) /\
    (r = None <-> count is_println evs = 1%nat) /\
    (count is_println evs <= 1)%nat /\
    (r = None -> In (EvSafeInit None) evs) /\
    (forall e, In (EvSafeInit (Some e)) evs -> r = Some (Foreign e)) /\
    (count is_set_writable evs <= 1)%nat /\
    forallb (asks_lock_as true) evs = true /\
    (count is_crypto_new evs <= 1)%nat /\
    (count is_safe_init evs <= count is_safe_load evs)%nat /\
    (count is_safe_load evs <= count is_crypto_new evs)%nat /\
    (count is_prompt evs > 0 -> count is_set_writable evs = 1)%nat /\
    (is_prompt (last evs EvUsage) = true -> count is_crypto_new evs = 0%nat).
Proof.
  run_body initSafe;
    do 2 eexists; (split; [trace_eq |]);
    repeat rewrite count_app; repeat rewrite count_one;
    cbn;
    repeat match goal with |- _ /\ _ => split end;
    try reflexivity; try lia; try discriminate;
    try (intros; discriminate);
    try (intros; lia);
    try (intros; tauto);
    try (split; intros; discriminate);
    try (intros e' He'; repeat (destruct He' as [He' | He']; try discriminate He');
         try contradiction; injection He' as ->; reflexivity).
Qed.

(** X8.  [initSafe] prints "pick initialized" exactly when it returns no
    error, and then [s.Init()] was called and returned no error.  An
    error of [s.Init()] is what [initSafe] returns: a failed write is
    never reported as a success. *)
Theorem initSafe_reports_what_happened env tr :
  exists r evs,
    initSafe env tr = (r, tr ++ evs) /\
    (r = None <-> count is_println evs = 1%nat) /\
    (count is_println evs <= 1)%nat /\
    (r = None -> In (EvSafeInit None) evs) /\
    (forall e, In (EvSafeInit (Some e)) evs -> r = Some (Foreign e)).
Proof.
  destruct (initSafe_calls env tr)
    as (r & evs & Hrun & Hiff & Hone & Hinit & Hfail & _).
  exists r, evs. repeat split; try assumption; apply Hiff.
Qed.

(** The calls of [initSafe] in the order in which it makes them. *)
Lemma initSafe_sequence env tr :
  exists r evs,
    initSafe env tr = (r, tr ++ evs) /\
    (exists a1 a2 a3 a4 a5 a6 pw a7 a8 rest,
        [EvBackendsNew a1; EvBackendLoad a2; EvSetWritable true a3;
         EvGetPasswordInput (set_prompt false) a4;
         EvGetPasswordInput (confirm_prompt false) a5;
         EvCryptoNew a6; EvSafeLoad pw a7; EvSafeInit a8;
         EvPrintln "pick initialized"] = evs ++ rest) /\
    forallb init_goes_on (removelast evs) = true.
Proof.
  run_body initSafe;
    do 2 eexists; (split; [trace_eq |]);
    (split; [do 10 eexists; cbn [app]; reflexivity | reflexivity]).
  Unshelve. all: first [exact None | exact []].
Qed.

(** X9.  [initSafe] makes its calls in one fixed order and never goes
    back: what it has called at any point is an initial part of
    [backends.New], [backendClient.Load], [SetWritable(true)], the entry
    prompt, the confirmation prompt, [crypto.New], [safe.Load],
    [s.Init()], the success message.  So the lock is asked for before the
    user is, [safe.Load] comes only after the crypto client and [s.Init()]
    only after [safe.Load], nothing is retried and the lock is never
    released.  A call is followed by another only if it answered in the
    way that lets the run go on: an error from [backendClient.Load],
    anything but [ErrAlreadyRunning] from [SetWritable], no error from
    the others.  A run that ends at a prompt, because the input failed or
    the two passwords differ, has built no crypto client, so it has
    loaded and written nothing. *)
Theorem initSafe_call_discipline env tr :
  exists r evs,
    initSafe env tr = (r, tr ++ evs) /\
    (exists a1 a2 a3 a4 a5 a6 pw a7 a8 rest,
        [EvBackendsNew a1; EvBackendLoad a2; EvSetWritable true a3;
         EvGetPasswordInput (set_prompt false) a4;
         EvGetPasswordInput (confirm_prompt false) a5;
         EvCryptoNew a6; EvSafeLoad pw a7; EvSafeInit a8;
         EvPrintln "pick initialized"] = evs ++ rest) /\
    forallb init_goes_on (removelast evs) = true /\
    (count is_set_writable evs <= 1)%nat /\
    forallb (asks_lock_as true) evs = true /\
    (count is_crypto_new evs <= 1)%nat /\
    (count is_safe_init evs <= count is_safe_load evs)%nat /\
    (count is_safe_load evs <= count is_crypto_new evs)%nat /\
    (count is_prompt evs > 0 -> count is_set_writable evs = 1)%nat /\
    (is_prompt (last evs EvUsage) = true ->
       count is_crypto_new evs = 0%nat /\ count is_safe_load evs = 0%nat /\
       count is_safe_init evs = 0%nat).
Proof.
  destruct (initSafe_calls env tr)
    as (r & evs & Hrun & _ & _ & _ & _ & Hw & Hlock & Hc & Hil & Hlc & Hpw & Hend).
  destruct (initSafe_sequence env tr) as (r2 & evs2 & Hrun2 & Hseq & Hon).
  rewrite Hrun in Hrun2. injection Hrun2 as <- Hevs.
  apply app_inv_head in Hevs. subst evs2.
  exists r, evs.
  split; [exact Hrun |]. split; [exact Hseq |]. split; [exact Hon |].
  repeat split; try assumption.
  - apply Hend. assumption.
  - specialize (Hend H). lia.
  - specialize (Hend H). lia.
Qed.

Lemma initSafe_call_discipline_witness :
  initSafe (Sample.cooperative Sample.empty [Sample.pw_good; Sample.pw_bad]) []
  = (Some (New mismatch_msg),
     [EvBackendsNew None; EvBackendLoad (Some (ErrOther "safe not found"));
      EvSetWritable true None;
      EvGetPasswordInput (set_prompt false) None;
      EvGetPasswordInput (confirm_prompt false) None]).
Proof.
  destruct (initSafe_call_discipline
              (Sample.cooperative Sample.empty [Sample.pw_good; Sample.pw_bad]) [])
    as (r & evs & Hrun & _).
  rewrite Hrun. vm_compute in Hrun. injection Hrun as <- <-. reflexivity.
Defined.

(** X10.  [readMasterPassConfirmed] returns the error of a prompt
    unchanged.  When the entry prompt fails the confirmation prompt is
    not shown; when the confirmation prompt fails its error is returned
    and the entry is dropped.  The only error of its own making is the
    mismatch error, and it comes after two answered prompts. *)
Theorem readMasterPassConfirmed_prompt_errors env (n : bool) tr :
  let entry := EvGetPasswordInput (set_prompt n) None in
  exists r evs,
    readMasterPassConfirmed env n tr = (r, tr ++ evs) /\
    (forall e,
        utils_GetPasswordInput env tr (set_prompt n) = Err e ->
        r = Err (Foreign e) /\
        evs = [EvGetPasswordInput (set_prompt n) (Some e)]) /\
    (forall p1 e,
        utils_GetPasswordInput env tr (set_prompt n) = Ok p1 ->
        utils_GetPasswordInput env (tr ++ [entry]) (confirm_prompt n) = Err e ->
        r = Err (Foreign e) /\
        evs = [entry; EvGetPasswordInput (confirm_prompt n) (Some e)]) /\
    (forall m,
        r = Err (New m) ->
        m = mismatch_msg /\
        evs = [entry; EvGetPasswordInput (confirm_prompt n) None]).
Proof.
  cbv zeta.
  run_body readMasterPassConfirmed;
    do 2 eexists; (split; [trace_eq |]);
    repeat match goal with |- _ /\ _ => split end;
    intros; try discriminate;
    repeat match goal with
           | H : Ok _ = Ok _ |- _ => injection H as <-
           | H : Err _ = Err _ |- _ => injection H as <-
           | H : New _ = New _ |- _ => injection H as <-
           end;
    try discriminate; try (split; reflexivity).
Qed.

Lemma readMasterPassConfirmed_prompt_errors_witness :
  readMasterPassConfirmed (Sample.cooperative Sample.empty [Sample.pw_good]) true []
  = (Err (Foreign (ErrOther "EOF")),
     [EvGetPasswordInput (set_prompt true) None;
      EvGetPasswordInput (confirm_prompt true) (Some (ErrOther "EOF"))]).
Proof.
  destruct (readMasterPassConfirmed_prompt_errors
              (Sample.cooperative Sample.empty [Sample.pw_good]) true [])
    as (r & evs & Hrun & _ & Hsecond & _).
  destruct (Hsecond Sample.pw_good (ErrOther "EOF") eq_refl eq_refl) as (-> & ->).
  exact Hrun.
Defined.

(** ** [RememberPassword] *)

(** X11.  [RememberPassword] changes nothing but the budget, which it
    raises by exactly one; [n] calls on a fresh loader give the budget
    [n].  At the largest Go int the increment wraps to the smallest one,
    and the loader then has no retry at all. *)
Theorem RememberPassword_budget sl :
  wf_loader sl ->
  writable (RememberPassword sl) = writable sl /\
  password (RememberPassword sl) = password sl /\
  loadTries (RememberPassword sl) = loadTries sl /\
  wf_loader (RememberPassword sl) /\
  (maxLoadTries sl < GoInt.max_int ->
     maxLoadTries (RememberPassword sl) = maxLoadTries sl + 1) /\
  (maxLoadTries sl = GoInt.max_int ->
     maxLoadTries (RememberPassword sl) = GoInt.min_int /\
     (maxLoadTries (RememberPassword sl) >? loadTries (RememberPassword sl)) = false) /\
  (forall (n : nat) (w : bool),
      Z.of_nat n <= GoInt.max_int ->
      maxLoadTries (Nat.iter n RememberPassword (newSafeLoader w)) = Z.of_nat n).
Proof.
  intros [Wm Wt].
  split; [reflexivity |]. split; [reflexivity |]. split; [reflexivity |].
  split; [| split; [| split]];
    [unfold RememberPassword, wf_loader .. |];
    cbn [writable password loadTries maxLoadTries set_maxLoadTries].
  - split; [apply incr_in_range | exact Wt].
  - intros Hlt. apply (incr_below _ GoInt.max_int); [exact Wm | | exact Hlt].
    unfold GoInt.in_range, GoInt.min_int, GoInt.max_int. lia.
  - intros Hmax. rewrite Hmax, incr_max_int. split; [reflexivity |].
    unfold GoInt.in_range, GoInt.min_int in *. lia.
  - intros n w Hn. rewrite (RememberPassword_iter n w Hn). reflexivity.
Qed.

Lemma RememberPassword_budget_witness :
  let sl := {| writable := true; password := None;
               maxLoadTries := GoInt.max_int; loadTries := 0 |} in
  wf_loader sl /\
  maxLoadTries (RememberPassword sl) = GoInt.min_int /\
  maxLoadTries (RememberPassword (newSafeLoader true)) = 1.
Proof.
  cbv zeta.
  assert (Hwf : wf_loader {| writable := true; password := None;
                             maxLoadTries := GoInt.max_int; loadTries := 0 |})
    by by_computation.
  split; [exact Hwf |].
  destruct (RememberPassword_budget _ Hwf) as (_ & _ & _ & _ & _ & Hwrap & Hiter).
  split; [apply Hwrap; reflexivity |].
  apply (Hiter 1%nat true). by_computation.
Defined.

(** ** [Load] and [initSafe] on the same backend *)

Lemma initSafe_refuses_iff env tr bc :
  backends_New env tr = Ok bc ->
  (fst (initSafe env tr) = Some (New already_initialized_msg) <->
   exists data, Client_Load bc (tr ++ [EvBackendsNew None]) = Ok data).
Proof.
  intros Hnew. unfold initSafe, newBackendClient, bind, call, ret.
  rewrite Hnew. cbn [err_of].
  destruct (Client_Load bc (tr ++ [EvBackendsNew None])) as [data | e] eqn:Hload.
  - cbn. split; [intros _; exists data; reflexivity | reflexivity].
  - split; [| intros (data & Hd); discriminate Hd].
    revert Hload. generalize (tr ++ [EvBackendsNew None]). intros tr1 Hload.
    run_body initSafe; cbn [fst]; intros H; discriminate H.
Qed.

(** X12.  [Load] and [initSafe] read the backend in the same way.  On a
    backend whose client can be made, exactly one of them gets past its
    first check: [initSafe] refuses with "already initialized" exactly
    when [Load] does not refuse with "not yet initialized". *)
Theorem init_and_load_agree env sl tr bc :
  wf_loader sl -> backends_New env tr = Ok bc ->
  exists sl' r evs,
    Load env sl tr = (Some (sl', r), tr ++ evs) /\
    (fst (initSafe env tr) = Some (New already_initialized_msg) <->
     r <> Err (New not_initialized_msg)).
Proof.
  intros Hwf Hnew.
  pose proof (initSafe_refuses_iff env tr bc Hnew) as Hinit.
  destruct (Load_cases env sl tr Hwf)
    as [(e & Hnew' & _) | [(bc' & e & Hnew' & Hload & Hrun)
       | (bc' & data & sl' & r & evs & Hnew' & Hload & Hrun & _ & F)]].
  - congruence.
  - assert (bc' = bc) by congruence. subst bc'.
    eexists _, _, _. split; [exact Hrun |]. rewrite Hinit. split.
    + intros (data & Hd). congruence.
    + intros Hne. contradiction Hne. reflexivity.
  - assert (bc' = bc) by congruence. subst bc'.
    eexists _, _, _. split; [exact Hrun |]. rewrite Hinit. split.
    + intros _. apply (run_foreign _ _ _ _ F).
    + intros _. exists data. exact Hload.
Qed.

Lemma init_and_load_agree_witness :
  let env := Sample.cooperative Sample.empty [Sample.pw_good; Sample.pw_good] in
  (wf_loader (newSafeLoader true) /\ backends_New env [] = Ok Sample.empty) /\
  fst (initSafe env []) = None /\
  exists sl' evs,
    Load env (newSafeLoader true) [] = (Some (sl', Err (New not_initialized_msg)), evs).
Proof.
  cbv zeta.
  assert (Hwf : wf_loader (newSafeLoader true)) by by_computation.
  split; [split; [exact Hwf | reflexivity] |].
  split; [vm_compute; reflexivity |].
  destruct (init_and_load_agree
              (Sample.cooperative Sample.empty [Sample.pw_good; Sample.pw_good])
              (newSafeLoader true) [] Sample.empty Hwf eq_refl)
    as (sl' & r & evs & Hrun & Hiff).
  exists sl', evs. rewrite Hrun. vm_compute in Hrun. injection Hrun as <- <- <-.
  reflexivity.
Defined.
